(** * CryptoViz: the normalized-trend pipeline

    A shallow embedding of the alignment and normalization code of
    [crypto-frontend/public/js/normalized-trend.js]:

    - [fetchHistoricalData]: the time-range filter applied to a fetched
      history (the network call itself is not modelled; the function takes
      the decoded response and the current time),
    - [processChartData]: the unified timeline ([labels]) and the aligned,
      interpolated prices of every series,
    - the [normalizedPrices] computed inside [renderZeroBasedChart] and
      [renderMinMaxChart],
    - [fetchAllCryptosData], which joins the eight requests and hands the
      result to the two charts, and [getColorForSymbol] with the hover
      colour derived from it.

    Numbers.  A JavaScript number is modelled by [number]: an exact rational
    ([Fin]) or one of the special values [PosInf], [NegInf], [NaN], with the
    IEEE rules for the special values written out (division by zero, the
    propagation of [NaN], comparisons with [NaN]).  Rounding and the sign of
    zero are not modelled: arithmetic on finite values is exact.

    Strings.  A timestamp is a [string] whose characters are the code units
    the default comparator of [Array.prototype.sort] compares.

    Dates.  [new Date(s).getTime()] is a parameter [getTime] of the functions
    that call it; [utcTime] is its value on the two UTC shapes of the
    ECMAScript date-time format and is used at concrete timestamps only. *)

From Stdlib Require Import QArith Qcanon String Ascii ZArith Lia.
From Stdlib Require Import Sorting.Permutation.
From Stdlib Require Import OrderedTypeEx.
From stdpp Require Import gmap strings list sorting.

Local Open Scope Qc_scope.

(** ** JavaScript numbers and values *)

Inductive number : Type :=
  | Fin (q : Qc)
  | PosInf
  | NegInf
  | NaN.

(** An integer as a rational. *)
Definition qz (z : Z) : Qc := Q2Qc (inject_Z z).

Definition num (z : Z) : number := Fin (qz z).

#[global] Instance number_eq_dec : EqDecision number.
Proof. solve_decision. Defined.

Definition num_neg (a : number) : number :=
  match a with
  | Fin q => Fin (- q)
  | PosInf => NegInf
  | NegInf => PosInf
  | NaN => NaN
  end.

Definition num_add (a b : number) : number :=
  match a, b with
  | NaN, _ | _, NaN => NaN
  | Fin x, Fin y => Fin (x + y)
  | PosInf, NegInf | NegInf, PosInf => NaN
  | PosInf, _ | _, PosInf => PosInf
  | NegInf, _ | _, NegInf => NegInf
  end.

Definition num_sub (a b : number) : number := num_add a (num_neg b).

(** The sign of a number: [Lt] negative, [Eq] zero, [Gt] positive. *)
Definition num_sign (a : number) : option comparison :=
  match a with
  | Fin q => Some (q ?= 0)
  | PosInf => Some Gt
  | NegInf => Some Lt
  | NaN => None
  end.

Definition signed_inf (s : comparison) : number :=
  match s with
  | Lt => NegInf
  | Gt => PosInf
  | Eq => NaN
  end.

Definition sign_mul (s t : comparison) : comparison :=
  match s, t with
  | Eq, _ | _, Eq => Eq
  | Lt, Lt | Gt, Gt => Gt
  | _, _ => Lt
  end.

Definition num_mul (a b : number) : number :=
  match a, b with
  | Fin x, Fin y => Fin (x * y)
  | _, _ =>
      match num_sign a, num_sign b with
      | Some s, Some t => signed_inf (sign_mul s t)
      | _, _ => NaN
      end
  end.

(** Division: a finite value over zero is an infinity of the sign of the
    numerator, [0 / 0] and [inf / inf] are [NaN], a finite value over an
    infinity is zero. *)
Definition num_div (a b : number) : number :=
  match a, b with
  | NaN, _ | _, NaN => NaN
  | Fin x, Fin y =>
      if decide (y = 0) then signed_inf (x ?= 0) else Fin (x / y)
  | Fin _, _ => num 0
  | _, Fin y =>
      match num_sign a with
      | Some s => signed_inf (sign_mul s (if decide (y = 0) then Gt else y ?= 0))
      | None => NaN
      end
  | _, _ => NaN
  end.

(** [a < b] and [a <= b] on numbers; both are false when a [NaN] takes
    part. *)
Definition num_ltb (a b : number) : bool :=
  match a, b with
  | NaN, _ | _, NaN => false
  | Fin x, Fin y => if (x ?= y) is Lt then true else false
  | NegInf, NegInf | PosInf, PosInf => false
  | NegInf, _ | _, PosInf => true
  | _, _ => false
  end.

Definition num_leb (a b : number) : bool :=
  match a, b with
  | NaN, _ | _, NaN => false
  | Fin x, Fin y => if (x ?= y) is Gt then false else true
  | NegInf, _ | _, PosInf => true
  | _, _ => false
  end.

Definition num_geb (a b : number) : bool := num_leb b a.

(** [Math.max(...l)] and [Math.min(...l)]: the extreme of the arguments,
    [-Infinity] (resp. [Infinity]) for no argument, [NaN] as soon as one
    argument is [NaN]. *)
Definition max_step (highest x : number) : number :=
  match highest, x with
  | NaN, _ | _, NaN => NaN
  | _, _ => if num_ltb highest x then x else highest
  end.

Definition min_step (lowest x : number) : number :=
  match lowest, x with
  | NaN, _ | _, NaN => NaN
  | _, _ => if num_ltb x lowest then x else lowest
  end.

Definition Math_max (l : list number) : number := foldl max_step NegInf l.
Definition Math_min (l : list number) : number := foldl min_step PosInf l.

Local Close Scope Qc_scope.

(** The values that occur in the arrays of the pipeline. *)
Inductive value : Type :=
  | VNum (x : number)
  | VNull
  | VUndefined.

#[global] Instance value_eq_dec : EqDecision value.
Proof. solve_decision. Defined.

(** [ToNumber]. *)
Definition toNumber (v : value) : number :=
  match v with
  | VNum x => x
  | VNull => num 0
  | VUndefined => NaN
  end.

(** [v !== null] and [v !== undefined]. *)
Definition not_null (v : value) : bool :=
  match v with VNull => false | _ => true end.

Definition not_undefined (v : value) : bool :=
  match v with VUndefined => false | _ => true end.

(** ** Normalization: [renderZeroBasedChart] and [renderMinMaxChart] *)

(** [price !== null ? ((price - minPrice) / (maxPrice - minPrice)) * 100 : null] *)
Definition normalizePrice (minPrice maxPrice : number) (price : value) : value :=
  if not_null price
  then VNum (num_mul (num_div (num_sub (toNumber price) minPrice)
                              (num_sub maxPrice minPrice))
                     (num 100))
  else VNull.

Definition validPrices (interpolatedPrices : list value) : list value :=
  List.filter not_null interpolatedPrices.

Definition zeroBasedNormalizedPrices (interpolatedPrices : list value) : list value :=
  let minPrice := num 0 in
  let maxPrice := Math_max (toNumber <$> validPrices interpolatedPrices) in
  normalizePrice minPrice maxPrice <$> interpolatedPrices.

Definition minMaxNormalizedPrices (interpolatedPrices : list value) : list value :=
  let minPrice := Math_min (toNumber <$> validPrices interpolatedPrices) in
  let maxPrice := Math_max (toNumber <$> validPrices interpolatedPrices) in
  normalizePrice minPrice maxPrice <$> interpolatedPrices.

(** The [data] arrays of the datasets built by [renderZeroBasedChart] and
    [renderMinMaxChart], one per entry of [processedCryptos]; the labels,
    the colours and the chart object are not modelled. *)
Definition datasetsData (normalizedPrices : list value → list value)
    (processed : list (list value)) : list (list value) :=
  normalizedPrices <$> processed.

(** ** Dates *)

(** [utcTime s] is [new Date(s).getTime()] for a timestamp of the shape
    [YYYY-MM-DDTHH:mm:ssZ] or [YYYY-MM-DDTHH:mm:ss.sssZ] (milliseconds since
    the epoch, UTC); any other string is outside this model and is given
    the value of an invalid date, [NaN]. *)
Module Date.

Definition digit (c : ascii) : option Z :=
  let n := Z.of_N (N_of_ascii c) in
  if ((48 <=? n) && (n <=? 57))%Z then Some (n - 48)%Z else None.

(** Reads exactly [n] decimal digits. *)
Fixpoint digits (n : nat) (acc : Z) (s : string) : option (Z * string) :=
  match n with
  | O => Some (acc, s)
  | S n' =>
      match s with
      | String c s' =>
          match digit c with
          | Some d => digits n' (10 * acc + d)%Z s'
          | None => None
          end
      | EmptyString => None
      end
  end.

Definition expect (c : ascii) (s : string) : option string :=
  match s with
  | String c' s' => if decide (c = c') then Some s' else None
  | EmptyString => None
  end.

Definition isLeap (y : Z) : bool :=
  ((y mod 4 =? 0) && (negb (y mod 100 =? 0) || (y mod 400 =? 0)))%Z.

Definition daysInMonth (y m : Z) : Z :=
  if (m =? 2)%Z then (if isLeap y then 29 else 28)%Z
  else if ((m =? 4) || (m =? 6) || (m =? 9) || (m =? 11))%Z then 30%Z
  else 31%Z.

(** Days from 1970-01-01 to the civil date [y]-[m]-[d]. *)
Definition daysFromCivil (y m d : Z) : Z :=
  let y' := (if m <=? 2 then y - 1 else y)%Z in
  let era := (y' / 400)%Z in
  let yoe := (y' - era * 400)%Z in
  let mp := (if m <=? 2 then m + 9 else m - 3)%Z in
  let doy := ((153 * mp + 2) / 5 + d - 1)%Z in
  let doe := (yoe * 365 + yoe / 4 - yoe / 100 + doy)%Z in
  (era * 146097 + doe - 719468)%Z.

Definition inRange (lo x hi : Z) : bool := ((lo <=? x) && (x <=? hi))%Z.

Definition parse (s : string) : option Z :=
  '(y, s) ← digits 4 0 s;
  s ← expect "-" s;
  '(mo, s) ← digits 2 0 s;
  s ← expect "-" s;
  '(d, s) ← digits 2 0 s;
  s ← expect "T" s;
  '(h, s) ← digits 2 0 s;
  s ← expect ":" s;
  '(mi, s) ← digits 2 0 s;
  s ← expect ":" s;
  '(sec, s) ← digits 2 0 s;
  '(ms, s) ← match s with
             | String "." s' => digits 3 0 s'
             | _ => Some (0%Z, s)
             end;
  s ← expect "Z" s;
  if decide (s = EmptyString) then
    if inRange 1 mo 12 && inRange 1 d (daysInMonth y mo)
       && inRange 0 h 23 && inRange 0 mi 59 && inRange 0 sec 59
    then Some ((((daysFromCivil y mo d * 24 + h) * 60 + mi) * 60 + sec) * 1000 + ms)%Z
    else None
  else None.

Definition utcTime (s : string) : number :=
  match parse s with
  | Some t => num t
  | None => NaN
  end.

End Date.

(** ** The default order of [Array.prototype.sort] on strings *)

(** Without a comparator, [sort] orders strings by their code units:
    [str_le] and its strict part [str_lt]. *)
Definition str_le (s t : string) : Prop := String.leb s t = true.
Definition str_lt (s t : string) : Prop := String.ltb s t = true.

#[global] Instance str_le_dec (s t : string) : Decision (str_le s t).
Proof. unfold str_le. apply _. Defined.

(** The order is total and the elements sorted below are pairwise distinct
    strings, so the sorted array does not depend on the engine's algorithm
    (see [Array_sort_unique]); a merge sort computes it. *)
Definition Array_sort (l : list string) : list string := merge_sort str_le l.

(** [set.add(x)] on a [Set] kept in insertion order. *)
Definition Set_add (s : list string) (x : string) : list string :=
  if decide (x ∈ s) then s else s ++ [x].

(** ** The data handed from [fetchHistoricalData] to [processChartData] *)

(** The decoded response of [GET /api/crypto/{symbol}/history]. *)
Record history : Type := History {
  h_timestamps : list string;
  h_prices : list value
}.

(** What [fetchHistoricalData] returns for one cryptocurrency. *)
Record cryptoData : Type := CryptoData {
  symbol : string;
  timestamps : list string;
  prices : list value
}.

(** One entry of [processedCryptos]. *)
Record processedCrypto : Type := ProcessedCrypto {
  pc_symbol : string;
  interpolatedPrices : list value
}.

(** The result of [processChartData]. *)
Record chartData : Type := ChartData {
  labels : list string;
  processedCryptos : list processedCrypto
}.

#[global] Instance cryptoData_eq_dec : EqDecision cryptoData.
Proof. solve_decision. Defined.

#[global] Instance processedCrypto_eq_dec : EqDecision processedCrypto.
Proof. solve_decision. Defined.

#[global] Instance chartData_eq_dec : EqDecision chartData.
Proof. solve_decision. Defined.

(** The element [a[i]] of an array; [undefined] out of range. *)
Definition index (a : list value) (i : nat) : value :=
  default VUndefined (a !! i).

(** The property [priceMap[t]] of the object [priceMap]; [undefined] when
    the object has no such key. *)
Definition prop (priceMap : gmap string value) (t : string) : value :=
  default VUndefined (priceMap !! t).

(** A string or [null] used as a condition: [null] and the empty string are
    falsy. *)
Definition truthy (t : option string) : option string :=
  match t with
  | Some s => if decide (s = EmptyString) then None else Some s
  | None => None
  end.

Section Pipeline.

(** [getTime s] stands for [new Date(s).getTime()]. *)
Variable getTime : string → number.

(** *** [fetchHistoricalData] *)

(** [cutoffTime]: a date for the three known ranges, left [undefined]
    ([None]) for any other. [now] is [currentTime.getTime()]. *)
Definition cutoffTime (now : Z) (timeRange : string) : option number :=
  if decide (timeRange = "24h"%string) then
    Some (num (now - 24 * 60 * 60 * 1000))
  else if decide (timeRange = "7d"%string) then
    Some (num (now - 7 * 24 * 60 * 60 * 1000))
  else if decide (timeRange = "1m"%string) then
    Some (num (now - 30 * 24 * 60 * 60 * 1000))
  else None.

(** A relational comparison takes the time value of a date and turns
    [undefined] into [NaN]. *)
Definition dateValue (d : option number) : number :=
  match d with
  | Some t => t
  | None => NaN
  end.

(** [timestamp >= cutoffTime && timestamp <= currentTime] *)
Definition withinRange (now : Z) (cutoff : option number) (t : string) : bool :=
  num_geb (getTime t) (dateValue cutoff) && num_leb (getTime t) (num now).

(** The loop over [data.timestamps] from index [i] on, [ts] being the
    timestamps not yet visited: the kept timestamps, each with
    [data.prices[i]]. *)
Fixpoint filterLoop (now : Z) (cutoff : option number) (data_prices : list value)
    (i : nat) (ts : list string) : list (string * value) :=
  match ts with
  | [] => []
  | t :: ts' =>
      if withinRange now cutoff t
      then (t, index data_prices i) :: filterLoop now cutoff data_prices (S i) ts'
      else filterLoop now cutoff data_prices (S i) ts'
  end.

Definition fetchHistoricalData (data : history) (now : Z)
    (sym timeRange : string) : cryptoData :=
  let kept := filterLoop now (cutoffTime now timeRange) (h_prices data) 0
                         (h_timestamps data) in
  {| symbol := sym; timestamps := kept.*1; prices := kept.*2 |}.

(** *** [processChartData] *)

(** The set of all timestamps, in insertion order. *)
Definition allTimestamps (data : list cryptoData) : list string :=
  foldl (λ set crypto, foldl Set_add set (timestamps crypto)) [] data.

(** The loop [priceMap[crypto.timestamps[i]] = crypto.prices[i]], over the
    timestamps [ts] and the prices [ps] from the same index on. *)
Fixpoint fillPriceMap (ts : list string) (ps : list value)
    (priceMap : gmap string value) : gmap string value :=
  match ts with
  | [] => priceMap
  | t :: ts' => fillPriceMap ts' (tail ps) (<[t := index ps 0]> priceMap)
  end.

Definition priceMapOf (crypto : cryptoData) : gmap string value :=
  fillPriceMap (timestamps crypto) (prices crypto) ∅.

Definition known (priceMap : gmap string value) (t : string) : bool :=
  not_undefined (prop priceMap t).

(** [for (j = i - 1; j >= 0; j--)]: the nearest label before index [i] with
    a price, [null] ([None]) when there is none. *)
Fixpoint findBefore (priceMap : gmap string value) (lbls : list string)
    (i : nat) : option string :=
  match i with
  | O => None
  | S j =>
      match lbls !! j with
      | Some t => if known priceMap t then Some t else findBefore priceMap lbls j
      | None => findBefore priceMap lbls j
      end
  end.

(** [for (j = i + 1; j < labels.length; j++)], [rest] being the labels from
    index [i + 1] on. *)
Fixpoint findAfter (priceMap : gmap string value) (rest : list string)
    : option string :=
  match rest with
  | [] => None
  | t :: rest' => if known priceMap t then Some t else findAfter priceMap rest'
  end.

(** The value pushed for index [i], whose label is [timestamp]. *)
Definition interpolate (priceMap : gmap string value) (lbls : list string)
    (i : nat) (timestamp : string) : value :=
  if known priceMap timestamp then prop priceMap timestamp
  else
    let beforeTimestamp := findBefore priceMap lbls i in
    let afterTimestamp := findAfter priceMap (drop (S i) lbls) in
    match truthy beforeTimestamp, truthy afterTimestamp with
    | Some before, Some after =>
        let beforePrice := toNumber (prop priceMap before) in
        let afterPrice := toNumber (prop priceMap after) in
        let beforeTime := getTime before in
        let afterTime := getTime after in
        let currentTime := getTime timestamp in
        let ratio := num_div (num_sub currentTime beforeTime)
                             (num_sub afterTime beforeTime) in
        VNum (num_add beforePrice (num_mul ratio (num_sub afterPrice beforePrice)))
    | Some before, None => prop priceMap before
    | None, Some after => prop priceMap after
    | None, None => VNull
    end.

Definition alignSeries (lbls : list string) (crypto : cryptoData) : processedCrypto :=
  {| pc_symbol := symbol crypto;
     interpolatedPrices := imap (interpolate (priceMapOf crypto) lbls) lbls |}.

Definition processChartData (data : list cryptoData) : chartData :=
  let lbls := Array_sort (allTimestamps data) in
  {| labels := lbls; processedCryptos := alignSeries lbls <$> data |}.

End Pipeline.

Definition renderZeroBasedChart (data : chartData) : list (list value) :=
  datasetsData zeroBasedNormalizedPrices (interpolatedPrices <$> processedCryptos data).

Definition renderMinMaxChart (data : chartData) : list (list value) :=
  datasetsData minMaxNormalizedPrices (interpolatedPrices <$> processedCryptos data).

(** ** Vocabulary of the statements *)

(** [M] is the greatest (resp. [m] the least) of the non-null entries of an
    aligned series: it occurs in the series and every non-null entry is a
    number below (resp. above) it. *)
Definition series_max (l : list value) (M : Qc) : Prop :=
  VNum (Fin M) ∈ l ∧
  ∀ v, v ∈ l → not_null v = true → num_leb (toNumber v) (Fin M) = true.

Definition series_min (l : list value) (m : Qc) : Prop :=
  VNum (Fin m) ∈ l ∧
  ∀ v, v ∈ l → not_null v = true → num_leb (Fin m) (toNumber v) = true.

(** Every non-null entry of the series is the finite number [c]. *)
Definition constant_series (l : list value) (c : Qc) : Prop :=
  ∀ v, v ∈ l → v = VNull ∨ v = VNum (Fin c).

(** A normalized entry lies in the range [lo, hi]; a [null] entry is not
    constrained. *)
Definition within (lo hi : Z) (v : value) : bool :=
  match v with
  | VNull => true
  | VNum x => num_leb (num lo) x && num_leb x (num hi)
  | VUndefined => false
  end.

(** The series has a point at timestamp [t] with price [x]: some index of
    its arrays holds [t] and [x], and no later index holds [t] again (a later
    entry for the same timestamp would replace the price). *)
Definition point_at (crypto : cryptoData) (t : string) (x : number) : Prop :=
  ∃ n, timestamps crypto !! n = Some t ∧
       prices crypto !! n = Some (VNum x) ∧
       t ∉ drop (S n) (timestamps crypto).

(** The series has no point at timestamp [t]. *)
Definition no_point (crypto : cryptoData) (t : string) : Prop :=
  t ∉ timestamps crypto.

(** The dates of a timeline increase strictly from each index to the next,
    for the reading [getTime] of the timestamps. *)
Definition chronological (getTime : string → number) (l : list string) : Prop :=
  ∀ i s t, l !! i = Some s → l !! S i = Some t →
           num_ltb (getTime s) (getTime t) = true.

(** ** [fetchAllCryptosData] *)

(** The symbols of the chart, stablecoins left out. *)
Definition cryptos : list string :=
  ["btc"; "eth"; "xrp"; "bnb"; "sol"; "doge"; "trx"; "ada"]%string.

(** What one refresh hands to the two charts: the labels, and the [data]
    array of each dataset of the zero-based and of the min-max chart. *)
Record charts : Type := Charts {
  chartLabels : list string;
  zeroBasedData : list (list value);
  minMaxData : list (list value)
}.

#[global] Instance charts_eq_dec : EqDecision charts.
Proof. solve_decision. Defined.

(** The data a refresh computes for the two charts. [server symbol] is the
    decoded response of the request for [symbol], [None] when the request,
    its decoding or the reading of the response raises, so that the promise
    of that call is rejected; [clock symbol] is the current time read by
    that call of [fetchHistoricalData]. [Promise.all] is rejected as soon
    as one of the calls is, and no data reaches a chart ([None]). Whether
    the charts are then drawn depends on the page and on the engine:
    [fetchAllCryptosDataIn] below. *)
Definition fetchAllCryptosData (getTime : string → number)
    (server : string → option history) (clock : string → Z)
    (selectedTimeRange : string) : option charts :=
  allCryptoData ←
    mapM (λ sym, data ← server sym;
                 Some (fetchHistoricalData getTime data (clock sym) sym selectedTimeRange))
         cryptos;
  let processedData := processChartData getTime allCryptoData in
  Some {| chartLabels := labels processedData;
          zeroBasedData := renderZeroBasedChart processedData;
          minMaxData := renderMinMaxChart processedData |}.

(** ** [getColorForSymbol] and the hover colour *)

Definition colors : list (string * string) :=
  [ ("btc", "rgb(247, 147, 26)"); ("eth", "rgb(35, 56, 204)");
    ("usdt", "rgb(39, 174, 96)"); ("xrp", "rgb(0, 65, 153)");
    ("bnb", "rgb(243, 186, 47)"); ("sol", "rgb(137, 72, 239)");
    ("usdc", "rgb(0, 123, 255)"); ("doge", "rgb(255, 105, 180)");
    ("trx", "rgb(220, 20, 60)"); ("ada", "rgb(0, 176, 185)") ]%string.

Definition extendedColors : list (string * string) :=
  [ ("dot", "rgb(230, 0, 122)"); ("link", "rgb(43, 109, 176)");
    ("matic", "rgb(130, 71, 229)"); ("avax", "rgb(232, 65, 66)");
    ("shib", "rgb(255, 128, 0)"); ("ltc", "rgb(191, 191, 191)");
    ("atom", "rgb(70, 118, 253)"); ("uni", "rgb(255, 0, 122)");
    ("xlm", "rgb(20, 20, 20)"); ("algo", "rgb(0, 200, 140)") ]%string.

(** [{...colors, ...extendedColors}]: the own properties of the merged
    object, a key of [extendedColors] replacing the same key of [colors]. *)
Definition allColors : gmap string string :=
  list_to_map extendedColors ∪ list_to_map colors.

Definition defaultColor : string := "rgb(200, 200, 200)".

(** [allColors[symbol] || 'rgb(200, 200, 200)']. A symbol that is no own key
    of [allColors] reads a member of [Object.prototype] when it names one
    ([inherited symbol]): a function or an object, which is truthy and is
    returned as it is; [None] stands for such a value, which is not a
    string. *)
Definition getColorForSymbol (inherited : string → bool) (sym : string)
    : option string :=
  match allColors !! sym with
  | Some color => Some (if decide (color = EmptyString) then defaultColor else color)
  | None => if inherited sym then None else Some defaultColor
  end.

(** [\d]: a decimal digit. *)
Definition isDigit (c : ascii) : bool :=
  let n := N_of_ascii c in ((48 <=? n) && (n <=? 57))%N.

Definition closeRun (run : string) : list string :=
  if decide (run = EmptyString) then [] else [run].

(** [s.match(/\d+/g)]: the maximal runs of digits of [s], from left to
    right, [run] being the run in progress; the empty list stands for the
    [null] returned when nothing matches. *)
Fixpoint matchDigits (run : string) (s : string) : list string :=
  match s with
  | EmptyString => closeRun run
  | String c s' =>
      if isDigit c then matchDigits (run ++ String c EmptyString) s'
      else closeRun run ++ matchDigits EmptyString s'
  end.

(** [${rgbValues[i]}]: the element, or the text of [undefined]. *)
Definition templateIndex (rgbValues : list string) (i : nat) : string :=
  default "undefined"%string (rgbValues !! i).

(** [`rgba(${rgbValues[0]}, ${rgbValues[1]}, ${rgbValues[2]}, 0.8)`];
    [None] when [match] returned [null], where [rgbValues[0]] raises a
    [TypeError]. *)
Definition hoverColor (baseColor : string) : option string :=
  match matchDigits EmptyString baseColor with
  | [] => None
  | rgbValues =>
      Some ("rgba(" ++ templateIndex rgbValues 0 ++ ", "
                    ++ templateIndex rgbValues 1 ++ ", "
                    ++ templateIndex rgbValues 2 ++ ", 0.8)")%string
  end.

(** ** The refresh in its page *)










(** ** More vocabulary *)

(** The price [q] rescaled to [a * q + b]; [null] entries stay. *)
Definition rescale (a b : Qc) (v : value) : value :=
  match v with
  | VNum (Fin q) => VNum (Fin (a * q + b)%Qc)
  | _ => v
  end.

(** The text of a colour with the components [r], [g], [b]. *)
Definition rgbText (r g b : string) : string :=
  ("rgb(" ++ r ++ ", " ++ g ++ ", " ++ b ++ ")")%string.

Definition rgbaText (r g b alpha : string) : string :=
  ("rgba(" ++ r ++ ", " ++ g ++ ", " ++ b ++ ", " ++ alpha ++ ")")%string.

(** The colour text [c] has three runs of digits, is [rgb(r, g, b)] for
    them, and its hover colour is [rgba(r, g, b, 0.8)]. *)
Definition rgb_shaped (c : string) : Prop :=
  match matchDigits EmptyString c with
  | [r; g; b] => c = rgbText r g b ∧ hoverColor c = Some (rgbaText r g b "0.8")
  | _ => False
  end.

(** ** Scenarios *)

Module Scenario.

(** Three timestamps an hour apart, and the two series of the worked
    example: BTC sampled at [t1] and [t3], ETH at [t2]. *)
Definition t1 : string := "2024-01-01T00:00:00Z".
Definition t2 : string := "2024-01-01T01:00:00Z".
Definition t3 : string := "2024-01-01T02:00:00Z".

Definition BTC : cryptoData :=
  {| symbol := "btc"; timestamps := [t1; t3];
     prices := [VNum (num 100); VNum (num 110)] |}.

Definition ETH : cryptoData :=
  {| symbol := "eth"; timestamps := [t2]; prices := [VNum (num 50)] |}.

Definition XRP : cryptoData :=
  {| symbol := "xrp"; timestamps := []; prices := [] |}.

(** Timestamps of one second, written with and without the milliseconds:
    [u0] is midnight, [u1] half a second later, [u2] one second later. *)
Definition u0 : string := "2024-01-01T00:00:00Z".
Definition u1 : string := "2024-01-01T00:00:00.500Z".
Definition u2 : string := "2024-01-01T00:00:01Z".

(** One series sampled at [u0] then [u1]. *)
Definition mixed : cryptoData :=
  {| symbol := "btc"; timestamps := [u0; u1];
     prices := [VNum (num 100); VNum (num 101)] |}.

(** A series sampled at [u1] and [u2], and one sampled at [u0]. *)
Definition halfSecond : cryptoData :=
  {| symbol := "btc"; timestamps := [u1; u2];
     prices := [VNum (num 100); VNum (num 110)] |}.

Definition midnight : cryptoData :=
  {| symbol := "eth"; timestamps := [u0]; prices := [VNum (num 50)] |}.

(** A response with one point inside and one outside the last day before
    [now], and a current time one hour after [t3]. *)
Definition response : history :=
  {| h_timestamps := ["2023-12-25T00:00:00Z"%string; t1; t3];
     h_prices := [VNum (num 90); VNum (num 100); VNum (num 110)] |}.

Definition now : Z := 1704078000000.

End Scenario.

Module MoreScenarios.

Import Scenario.

(** A series sampled at [t3] only. *)
Definition SOL : cryptoData :=
  {| symbol := "sol"; timestamps := [t3]; prices := [VNum (num 7)] |}.

(** A response with a text that is no date. *)
Definition withInvalid : history :=
  {| h_timestamps := ["yesterday"%string; t1];
     h_prices := [VNum (num 1); VNum (num 100)] |}.

(** Prices of a series, with and without a zero. *)
Definition ladder : list value := [VNum (num 100); VNum (num 105); VNum (num 110)].
Definition fromZero : list value := [VNum (num 0); VNum (num 50); VNum (num 100)].

(** A server that answers every symbol with [response], one that rejects
    the request for ['sol'], and a clock that stands still. *)
Definition answering : string → option history := λ _, Some response.


Definition still : string → Z := λ _, now.

(** The members of [Object.prototype] in a browser. *)
Definition prototypeMember (name : string) : bool :=
  bool_decide (name ∈ [ "constructor"; "hasOwnProperty"; "isPrototypeOf";
                        "propertyIsEnumerable"; "toLocaleString"; "toString";
                        "valueOf"; "__proto__"; "__defineGetter__";
                        "__defineSetter__"; "__lookupGetter__";
                        "__lookupSetter__" ]%string).




End MoreScenarios.

(** * Properties *)

(** ** Numbers *)

Section Numbers.

Local Open Scope Qc_scope.

Lemma num_leb_Fin (a b : Qc) : num_leb (Fin a) (Fin b) = true ↔ a <= b.
Proof.
  simpl. rewrite Qcle_alt. destruct (a ?= b); split; congruence.
Qed.

Lemma num_ltb_Fin (a b : Qc) : num_ltb (Fin a) (Fin b) = true ↔ a < b.
Proof.
  simpl. rewrite Qclt_alt. destruct (a ?= b); split; congruence.
Qed.

Lemma num_ltb_Fin_false (a b : Qc) : num_ltb (Fin a) (Fin b) = false ↔ b <= a.
Proof.
  rewrite <- not_true_iff_false, num_ltb_Fin. split.
  - apply Qcnot_lt_le.
  - intros H1 H2. exact (Qcle_not_lt _ _ H1 H2).
Qed.

(** A number below a finite bound is finite or [-Infinity]. *)
Lemma num_leb_Fin_r (x : number) (b : Qc) :
  num_leb x (Fin b) = true → x = NegInf ∨ ∃ a, x = Fin a ∧ a <= b.
Proof.
  destruct x as [a| | |]; simpl; try discriminate; auto.
  intros H. right. exists a. split; [done|]. by apply num_leb_Fin.
Qed.

Lemma num_leb_Fin_l (x : number) (a : Qc) :
  num_leb (Fin a) x = true → x = PosInf ∨ ∃ b, x = Fin b ∧ a <= b.
Proof.
  destruct x as [b| | |]; simpl; try discriminate; auto.
  intros H. right. exists b. split; [done|]. by apply num_leb_Fin.
Qed.

(** The running maximum of [Math.max] stays at a finite bound [M] once it
    has reached it, and reaches it when [M] is among the arguments. *)
Lemma foldl_max_bounded (M : Qc) (l : list number) (acc : number) :
  (∀ x, x ∈ l → num_leb x (Fin M) = true) →
  num_leb acc (Fin M) = true →
  acc = Fin M ∨ Fin M ∈ l →
  foldl max_step acc l = Fin M.
Proof.
  revert acc. induction l as [|x l IH]; intros acc Hall Hacc Hin; simpl.
  - destruct Hin as [?|Hin]; [done|]. by apply elem_of_nil in Hin.
  - assert (Hx : num_leb x (Fin M) = true) by (apply Hall; left).
    assert (Hl : ∀ y, y ∈ l → num_leb y (Fin M) = true)
      by (intros y Hy; apply Hall; by right).
    apply num_leb_Fin_r in Hx as [->|(a & -> & Ha)];
      apply num_leb_Fin_r in Hacc as [->|(c & -> & Hc)].
    + simpl. apply IH; [done|done|].
      destruct Hin as [?|Hin]; [done|]. apply elem_of_cons in Hin as [?|?]; [done|auto].
    + simpl. apply IH; [done|by apply num_leb_Fin|].
      destruct Hin as [?|Hin]; [auto|]. apply elem_of_cons in Hin as [?|?]; [done|auto].
    + simpl. apply IH; [done|by apply num_leb_Fin|].
      destruct Hin as [?|Hin]; [done|]. apply elem_of_cons in Hin as [?|?]; [auto|auto].
    + unfold max_step. destruct (num_ltb (Fin c) (Fin a)) eqn:Hlt.
      * apply IH; [done|by apply num_leb_Fin|].
        destruct Hin as [Hin|Hin].
        -- left. f_equal. injection Hin as ->. apply num_ltb_Fin in Hlt.
           apply Qcle_antisym; [done|]. by apply Qclt_le_weak.
        -- apply elem_of_cons in Hin as [?|?]; [auto|auto].
      * apply IH; [done|by apply num_leb_Fin|].
        destruct Hin as [Hin|Hin]; [auto|].
        apply elem_of_cons in Hin as [Hin|?]; [|auto].
        left. f_equal. injection Hin as <-. apply num_ltb_Fin_false in Hlt.
        by apply Qcle_antisym.
Qed.

Lemma foldl_min_bounded (m : Qc) (l : list number) (acc : number) :
  (∀ x, x ∈ l → num_leb (Fin m) x = true) →
  num_leb (Fin m) acc = true →
  acc = Fin m ∨ Fin m ∈ l →
  foldl min_step acc l = Fin m.
Proof.
  revert acc. induction l as [|x l IH]; intros acc Hall Hacc Hin; simpl.
  - destruct Hin as [?|Hin]; [done|]. by apply elem_of_nil in Hin.
  - assert (Hx : num_leb (Fin m) x = true) by (apply Hall; left).
    assert (Hl : ∀ y, y ∈ l → num_leb (Fin m) y = true)
      by (intros y Hy; apply Hall; by right).
    apply num_leb_Fin_l in Hx as [->|(a & -> & Ha)];
      apply num_leb_Fin_l in Hacc as [->|(c & -> & Hc)].
    + simpl. apply IH; [done|done|].
      destruct Hin as [?|Hin]; [done|]. apply elem_of_cons in Hin as [?|?]; [done|auto].
    + simpl. apply IH; [done|by apply num_leb_Fin|].
      destruct Hin as [?|Hin]; [auto|]. apply elem_of_cons in Hin as [?|?]; [done|auto].
    + simpl. apply IH; [done|by apply num_leb_Fin|].
      destruct Hin as [?|Hin]; [done|]. apply elem_of_cons in Hin as [?|?]; [auto|auto].
    + unfold min_step. destruct (num_ltb (Fin a) (Fin c)) eqn:Hlt.
      * apply IH; [done|by apply num_leb_Fin|].
        destruct Hin as [Hin|Hin].
        -- left. f_equal. injection Hin as ->. apply num_ltb_Fin in Hlt.
           apply Qcle_antisym; [|done]. by apply Qclt_le_weak.
        -- apply elem_of_cons in Hin as [?|?]; [auto|auto].
      * apply IH; [done|by apply num_leb_Fin|].
        destruct Hin as [Hin|Hin]; [auto|].
        apply elem_of_cons in Hin as [Hin|?]; [|auto].
        left. f_equal. injection Hin as <-. apply num_ltb_Fin_false in Hlt.
        by apply Qcle_antisym.
Qed.

Lemma Math_max_greatest (M : Qc) (l : list number) :
  Fin M ∈ l → (∀ x, x ∈ l → num_leb x (Fin M) = true) → Math_max l = Fin M.
Proof. intros Hin Hall. apply foldl_max_bounded; auto. Qed.

Lemma Math_min_least (m : Qc) (l : list number) :
  Fin m ∈ l → (∀ x, x ∈ l → num_leb (Fin m) x = true) → Math_min l = Fin m.
Proof. intros Hin Hall. apply foldl_min_bounded; auto. Qed.

End Numbers.

(** ** Normalization *)

Section Normalization.

Local Open Scope Qc_scope.

Lemma elem_of_validPrices (l : list value) (v : value) :
  v ∈ validPrices l ↔ v ∈ l ∧ not_null v = true.
Proof. unfold validPrices. rewrite !list_elem_of_In. apply filter_In. Qed.

Lemma Math_max_series (l : list value) (M : Qc) :
  series_max l M → Math_max (toNumber <$> validPrices l) = Fin M.
Proof.
  intros [Hin Hall]. apply Math_max_greatest.
  - apply (list_elem_of_fmap_2 toNumber _ (VNum (Fin M))).
    by apply elem_of_validPrices.
  - intros x (v & -> & Hv)%list_elem_of_fmap.
    apply elem_of_validPrices in Hv as [? ?]. by apply Hall.
Qed.

Lemma Math_min_series (l : list value) (m : Qc) :
  series_min l m → Math_min (toNumber <$> validPrices l) = Fin m.
Proof.
  intros [Hin Hall]. apply Math_min_least.
  - apply (list_elem_of_fmap_2 toNumber _ (VNum (Fin m))).
    by apply elem_of_validPrices.
  - intros x (v & -> & Hv)%list_elem_of_fmap.
    apply elem_of_validPrices in Hv as [? ?]. by apply Hall.
Qed.

Lemma constant_series_max (l : list value) (c : Qc) :
  constant_series l c → VNum (Fin c) ∈ l → series_max l c.
Proof.
  intros Hc Hin. split; [done|]. intros v Hv Hnn.
  destruct (Hc v Hv) as [->| ->]; [done|]. apply num_leb_Fin, Qcle_refl.
Qed.

Lemma constant_series_min (l : list value) (c : Qc) :
  constant_series l c → VNum (Fin c) ∈ l → series_min l c.
Proof.
  intros Hc Hin. split; [done|]. intros v Hv Hnn.
  destruct (Hc v Hv) as [->| ->]; [done|]. apply num_leb_Fin, Qcle_refl.
Qed.

(** The normalized value of a finite price between finite, distinct
    bounds. *)
Lemma normalizePrice_Fin (m M q : Qc) :
  M ≠ m →
  normalizePrice (Fin m) (Fin M) (VNum (Fin q))
  = VNum (Fin ((q - m) / (M - m) * qz 100)).
Proof.
  intros Hne. unfold normalizePrice. simpl.
  destruct (decide (M + - m = 0)) as [H0|H0]; [|done].
  exfalso. apply Hne. rewrite <- (Qcplus_0_l m), <- H0. ring.
Qed.

(** With equal bounds the quotient is [0 / 0]. *)
Lemma normalizePrice_degenerate (c : Qc) :
  normalizePrice (Fin c) (Fin c) (VNum (Fin c)) = VNum NaN.
Proof.
  unfold normalizePrice. simpl.
  destruct (decide (c + - c = 0)) as [H0|H0].
  - by rewrite H0.
  - exfalso. apply H0. ring.
Qed.

Lemma normalizePrice_null (lo hi : number) : normalizePrice lo hi VNull = VNull.
Proof. reflexivity. Qed.

Lemma qz_100_pos : 0 < qz 100.
Proof. reflexivity. Qed.

(** A quotient of a part by the positive whole, scaled by 100, lies in
    [0, 100]. *)
Lemma scaled_quotient_bounds (a b : Qc) :
  0 <= a → a <= b → 0 < b →
  0 <= a / b * qz 100 ∧ a / b * qz 100 <= qz 100.
Proof.
  intros Ha Hab Hb.
  assert (Hb0 : b ≠ 0) by (intros ->; by apply (Qclt_not_eq 0 0)).
  assert (H100 : 0 <= qz 100) by (apply Qclt_le_weak, qz_100_pos).
  split.
  - apply (Qcmult_lt_0_le_reg_r _ _ b Hb).
    replace (0 * b) with 0 by ring.
    replace (a / b * qz 100 * b) with (a * qz 100) by (field; done).
    replace 0 with (0 * qz 100) by ring.
    by apply Qcmult_le_compat_r.
  - apply (Qcmult_lt_0_le_reg_r _ _ b Hb).
    replace (a / b * qz 100 * b) with (a * qz 100) by (field; done).
    rewrite (Qcmult_comm (qz 100) b).
    by apply Qcmult_le_compat_r.
Qed.

(** A non-null entry between the least and the greatest entry of a series
    is a finite number between them. *)
Lemma series_entry_finite (l : list value) (m M : Qc) (u : value) :
  series_min l m → series_max l M → u ∈ l → not_null u = true →
  ∃ q, u = VNum (Fin q) ∧ m <= q ∧ q <= M.
Proof.
  intros [_ Hmin] [_ Hmax] Hu Hnn.
  specialize (Hmin u Hu Hnn). specialize (Hmax u Hu Hnn).
  destruct u as [x| |]; [|done|done]. simpl in *.
  apply num_leb_Fin_r in Hmax as [->|(a & -> & Ha)]; [done|].
  apply num_leb_Fin in Hmin. eauto.
Qed.

Lemma series_min_le_max (l : list value) (m M : Qc) :
  series_min l m → series_max l M → m <= M.
Proof.
  intros Hmin [HM Hmax].
  destruct (series_entry_finite l m M (VNum (Fin M)) Hmin (conj HM Hmax) HM eq_refl)
    as (q & [= <-] & H1 & H2).
  done.
Qed.

Lemma minus_nonneg (a b : Qc) : a <= b → 0 <= b - a.
Proof. intros H. exact (proj1 (Qcle_minus_iff a b) H). Qed.

Lemma minus_pos (a b : Qc) : a <= b → a ≠ b → 0 < b - a.
Proof.
  intros H Hne. apply (proj1 (Qclt_minus_iff a b)).
  destruct (Qcle_lt_or_eq _ _ H); [done|contradiction].
Qed.

Lemma minus_le_minus (a b c : Qc) : a <= b → a - c <= b - c.
Proof. intros H. apply Qcplus_le_compat; [done|apply Qcle_refl]. Qed.

Lemma within_0_100 (r : Qc) :
  0 <= r ∧ r <= qz 100 → within 0 100 (VNum (Fin r)) = true.
Proof.
  intros [H0 H100]. simpl within. apply andb_true_intro. split.
  - by apply (num_leb_Fin (qz 0) r).
  - by apply (num_leb_Fin r (qz 100)).
Qed.

(** The zero denominator of a constant series, at every such series and
    not only at one input: when the non-null values all equal one finite
    constant [c], the quotient of an entry holding [c] is [0 / 0] under the
    min-max policy, and under the zero-based policy when [c] is [0]; it is
    [c / c * 100 = 100] under the zero-based policy otherwise. *)
Theorem constant_series_normalization (l : list value) (c : Qc) :
  constant_series l c →
  length (minMaxNormalizedPrices l) = length l ∧
  length (zeroBasedNormalizedPrices l) = length l ∧
  (∀ i, l !! i = Some (VNum (Fin c)) →
     minMaxNormalizedPrices l !! i = Some (VNum NaN)) ∧
  (∀ i, l !! i = Some (VNum (Fin c)) →
     zeroBasedNormalizedPrices l !! i
     = Some (VNum (if decide (c = 0) then NaN else num 100))).
Proof.
  intros Hc. split; [apply length_fmap|]. split; [apply length_fmap|].
  split; intros i Hi.
  - assert (Hin : VNum (Fin c) ∈ l) by (apply list_elem_of_lookup; eauto).
    unfold minMaxNormalizedPrices.
    rewrite (Math_min_series l c), (Math_max_series l c)
      by auto using constant_series_min, constant_series_max.
    rewrite list_lookup_fmap, Hi. simpl. by rewrite normalizePrice_degenerate.
  - assert (Hin : VNum (Fin c) ∈ l) by (apply list_elem_of_lookup; eauto).
    unfold zeroBasedNormalizedPrices.
    rewrite (Math_max_series l c) by auto using constant_series_max.
    rewrite list_lookup_fmap, Hi. simpl. f_equal.
    destruct (decide (c = 0)) as [->|Hne].
    + apply (normalizePrice_degenerate 0).
    + unfold num. rewrite normalizePrice_Fin by done. do 2 f_equal.
      change (qz 0) with 0. field. intros H0. apply Hne.
      rewrite <- H0. ring.
Qed.

(** C7, as the code has it. For every aligned series whose non-null values
    are finite with least value [m] and greatest value [M]: under the
    min-max policy, when [m] and [M] differ, every output lies in [0, 100];
    under the zero-based policy, when the prices are non-negative and [M] is
    positive, every output lies in [0, 100] (90 to 100 is the window of the
    chart's axis, the values are not confined to it). *)
Theorem normalized_range (l : list value) (m M : Qc) :
  series_min l m → series_max l M →
  (m ≠ M → ∀ v, v ∈ minMaxNormalizedPrices l → within 0 100 v = true) ∧
  (0 <= m → 0 < M → ∀ v, v ∈ zeroBasedNormalizedPrices l → within 0 100 v = true).
Proof.
  intros Hmin Hmax.
  pose proof (series_min_le_max l m M Hmin Hmax) as HmM.
  split.
  - intros Hne v. unfold minMaxNormalizedPrices.
    rewrite (Math_min_series l m), (Math_max_series l M) by done.
    intros (u & -> & Hu)%list_elem_of_fmap.
    destruct (not_null u) eqn:Hnn; [|by destruct u].
    destruct (series_entry_finite l m M u Hmin Hmax Hu Hnn) as (q & -> & Hq1 & Hq2).
    rewrite normalizePrice_Fin by done.
    apply within_0_100, scaled_quotient_bounds.
    + by apply minus_nonneg.
    + by apply minus_le_minus.
    + by apply minus_pos.
  - intros Hm0 HM0 v. unfold zeroBasedNormalizedPrices.
    rewrite (Math_max_series l M) by done.
    intros (u & -> & Hu)%list_elem_of_fmap.
    destruct (not_null u) eqn:Hnn; [|by destruct u].
    destruct (series_entry_finite l m M u Hmin Hmax Hu Hnn) as (q & -> & Hq1 & Hq2).
    assert (HM : M ≠ qz 0) by (intros ->; by apply (Qclt_not_eq 0 0)).
    unfold num. rewrite normalizePrice_Fin by done.
    apply within_0_100. change (qz 0) with 0.
    replace (q - 0) with q by ring. replace (M - 0) with M by ring.
    apply scaled_quotient_bounds; [|done|done].
    by apply Qcle_trans with m.
Qed.

(** C8. For every aligned series with least non-null value [m] and greatest
    non-null value [M], [m] and [M] distinct, min-max normalization yields
    exactly 0 at an index holding [m] and exactly 100 at an index holding
    [M]; and it maps [100, 105, 110] to [0, 50, 100]. *)
Theorem minMax_extremes (l : list value) (m M : Qc) :
  series_min l m → series_max l M → m ≠ M →
  (∀ i, l !! i = Some (VNum (Fin m)) →
     minMaxNormalizedPrices l !! i = Some (VNum (num 0))) ∧
  (∀ i, l !! i = Some (VNum (Fin M)) →
     minMaxNormalizedPrices l !! i = Some (VNum (num 100))) ∧
  minMaxNormalizedPrices [VNum (num 100); VNum (num 105); VNum (num 110)]
  = [VNum (num 0); VNum (num 50); VNum (num 100)].
Proof.
  intros Hmin Hmax Hne.
  assert (HMm : M - m ≠ 0).
  { intros H0. apply Hne. rewrite <- (Qcplus_0_l m), <- H0. ring. }
  split; [|split].
  - intros i Hi. unfold minMaxNormalizedPrices.
    rewrite (Math_min_series l m), (Math_max_series l M) by done.
    rewrite list_lookup_fmap, Hi. simpl.
    rewrite normalizePrice_Fin by done. unfold num. do 3 f_equal.
    change (qz 0) with 0. field. done.
  - intros i Hi. unfold minMaxNormalizedPrices.
    rewrite (Math_min_series l m), (Math_max_series l M) by done.
    rewrite list_lookup_fmap, Hi. simpl.
    rewrite normalizePrice_Fin by done. unfold num. do 3 f_equal.
    field. done.
  - apply (bool_decide_eq_true_1 _). vm_compute. reflexivity.
Qed.

(** C9. Under both policies a [null] entry of an aligned series stays
    [null], and an aligned series made of [null] entries only is returned
    unchanged: an all-null series, nothing raised. *)
Theorem null_propagation (l : list value) :
  (∀ i, l !! i = Some VNull →
     zeroBasedNormalizedPrices l !! i = Some VNull ∧
     minMaxNormalizedPrices l !! i = Some VNull) ∧
  ((∀ v, v ∈ l → v = VNull) →
     zeroBasedNormalizedPrices l = l ∧ minMaxNormalizedPrices l = l).
Proof.
  split.
  - intros i Hi. unfold zeroBasedNormalizedPrices, minMaxNormalizedPrices.
    by rewrite !list_lookup_fmap, Hi.
  - intros Hall.
    assert (Hnorm : ∀ lo hi, normalizePrice lo hi <$> l = l).
    { intros lo hi. apply list_eq. intros i. rewrite list_lookup_fmap.
      destruct (l !! i) as [v|] eqn:Hi; [|done].
      rewrite (Hall v) by (apply list_elem_of_lookup; eauto). done. }
    split; apply Hnorm.
Qed.

End Normalization.

(** ** The timeline *)

Section Timeline.

(** *** The code-unit order *)

Lemma str_le_cases (s t : string) : str_le s t ↔ s = t ∨ String_as_OT.lt s t.
Proof.
  unfold str_le, String.leb.
  destruct (String.compare s t) eqn:Hc.
  - apply String.compare_eq_iff in Hc. split; auto.
  - apply String_as_OT.cmp_lt in Hc. split; auto.
  - split; [done|]. intros [->|Hlt].
    + assert (String_as_OT.cmp t t = Eq) as Heq by by apply String_as_OT.cmp_eq.
      unfold String_as_OT.cmp in Heq. congruence.
    + apply String_as_OT.cmp_lt in Hlt. unfold String_as_OT.cmp in Hlt. congruence.
Qed.

Lemma str_lt_cases (s t : string) : str_lt s t ↔ String_as_OT.lt s t.
Proof.
  unfold str_lt, String.ltb. rewrite <- String_as_OT.cmp_lt.
  unfold String_as_OT.cmp. destruct (String.compare s t); split; congruence.
Qed.

Lemma str_le_total : Total str_le.
Proof. intros s t. apply String.leb_total. Qed.

Lemma str_le_antisymm : AntiSymm (=) str_le.
Proof. intros s t. apply String.leb_antisym. Qed.

Lemma str_le_trans : Transitive str_le.
Proof.
  intros s t u. rewrite !str_le_cases.
  intros [->|H1] [->|H2]; auto.
  right. eapply String_as_OT.lt_trans; eauto.
Qed.

Lemma str_lt_trans : Transitive str_lt.
Proof.
  intros s t u. rewrite !str_lt_cases. apply String_as_OT.lt_trans.
Qed.

#[local] Existing Instance str_le_total.
#[local] Existing Instance str_le_antisymm.
#[local] Existing Instance str_le_trans.

Lemma str_lt_le_ne (s t : string) : str_lt s t ↔ str_le s t ∧ s ≠ t.
Proof.
  rewrite str_lt_cases, str_le_cases. split.
  - intros Hlt. split; [auto|]. intros ->.
    by apply String_as_OT.lt_not_eq in Hlt.
  - intros [[->|?] ?]; done.
Qed.

(** Nothing is below the empty string. *)
Lemma str_lt_empty (s : string) : ¬ str_lt s EmptyString.
Proof. unfold str_lt. by destruct s. Qed.

(** *** [Set] and [sort] *)

Lemma elem_of_foldl_Set_add (l s : list string) (t : string) :
  t ∈ foldl Set_add s l ↔ t ∈ s ∨ t ∈ l.
Proof.
  revert s. induction l as [|x l IH]; intros s; simpl.
  - rewrite elem_of_nil. tauto.
  - rewrite IH, elem_of_cons. unfold Set_add.
    destruct (decide (x ∈ s)) as [Hin|Hin].
    + split; [tauto|]. intros [?|[->|?]]; auto.
    + rewrite elem_of_app, list_elem_of_singleton. tauto.
Qed.

Lemma NoDup_foldl_Set_add (l s : list string) :
  NoDup s → NoDup (foldl Set_add s l).
Proof.
  revert s. induction l as [|x l IH]; intros s Hs; simpl; [done|].
  apply IH. unfold Set_add. destruct (decide (x ∈ s)) as [Hin|Hin]; [done|].
  apply NoDup_app. split; [done|]. split.
  - intros y Hy ->%list_elem_of_singleton. done.
  - apply NoDup_singleton.
Qed.

Lemma elem_of_foldl_timestamps (getTs : cryptoData → list string)
    (data : list cryptoData) (s : list string) (t : string) :
  t ∈ foldl (λ set crypto, foldl Set_add set (getTs crypto)) s data
  ↔ t ∈ s ∨ ∃ c, c ∈ data ∧ t ∈ getTs c.
Proof.
  revert s. induction data as [|c data IH]; intros s; simpl.
  - split; [auto|]. intros [?|(c & Hc & _)]; [done|]. by apply elem_of_nil in Hc.
  - rewrite IH, elem_of_foldl_Set_add. split.
    + intros [[?|?]|(c' & Hc' & Ht)]; [auto| |].
      * right. exists c. split; [left|done].
      * right. exists c'. split; [by right|done].
    + intros [?|(c' & Hc' & Ht)]; [auto|].
      apply elem_of_cons in Hc' as [->|Hc']; [auto|].
      right. eauto.
Qed.

Lemma elem_of_allTimestamps (data : list cryptoData) (t : string) :
  t ∈ allTimestamps data ↔ ∃ c, c ∈ data ∧ t ∈ timestamps c.
Proof.
  unfold allTimestamps. rewrite elem_of_foldl_timestamps, elem_of_nil. tauto.
Qed.

Lemma NoDup_allTimestamps (data : list cryptoData) : NoDup (allTimestamps data).
Proof.
  unfold allTimestamps. generalize (NoDup_nil_2 (A:=string)).
  generalize (@nil string). induction data as [|c data IH]; intros s Hs; simpl; [done|].
  apply IH. by apply NoDup_foldl_Set_add.
Qed.

Lemma Array_sort_Permutation (l : list string) : Array_sort l ≡ₚ l.
Proof. apply merge_sort_Permutation. Qed.

Lemma Array_sort_sorted (l : list string) : StronglySorted str_le (Array_sort l).
Proof. unfold Array_sort. apply (StronglySorted_merge_sort str_le). Qed.

(** Whatever algorithm the engine runs, a sorted rearrangement of [l] is
    [Array_sort l]. *)
Lemma Array_sort_unique (l l' : list string) :
  l' ≡ₚ l → Sorted str_le l' → l' = Array_sort l.
Proof.
  intros Hp Hs. apply (Sorted_unique str_le); [done| |].
  - apply StronglySorted_Sorted, Array_sort_sorted.
  - by rewrite Array_sort_Permutation.
Qed.

Lemma StronglySorted_lookup_le (l : list string) (i j : nat) (s t : string) :
  StronglySorted str_le l → i < j → l !! i = Some s → l !! j = Some t →
  str_le s t.
Proof.
  intros Hs. revert i j. induction Hs as [|x l Hs IH Hall]; intros i j Hij Hi Hj.
  - done.
  - destruct j as [|j]; [lia|]. destruct i as [|i]; simpl in *.
    + injection Hi as ->. rewrite Forall_forall in Hall.
      apply Hall, list_elem_of_lookup. eauto.
    + apply (IH i j); [lia|done|done].
Qed.

End Timeline.

(** ** Alignment *)

Section Alignment.

Variable getTime : string → number.

Lemma elem_of_labels (data : list cryptoData) (t : string) :
  t ∈ labels (processChartData getTime data)
  ↔ ∃ c, c ∈ data ∧ t ∈ timestamps c.
Proof.
  simpl. rewrite Array_sort_Permutation. apply elem_of_allTimestamps.
Qed.

Lemma NoDup_labels (data : list cryptoData) :
  NoDup (labels (processChartData getTime data)).
Proof.
  simpl. rewrite Array_sort_Permutation. apply NoDup_allTimestamps.
Qed.

(** The timeline is strictly increasing in the code-unit order. *)
Lemma labels_increasing (data : list cryptoData) (i j : nat) (s t : string) :
  i < j →
  labels (processChartData getTime data) !! i = Some s →
  labels (processChartData getTime data) !! j = Some t →
  str_lt s t.
Proof.
  intros Hij Hi Hj. apply str_lt_le_ne. split.
  - eapply StronglySorted_lookup_le; [apply Array_sort_sorted|exact Hij|exact Hi|exact Hj].
  - intros ->. pose proof (NoDup_lookup _ _ _ _ (NoDup_labels data) Hi Hj). lia.
Qed.

(** *** The price map *)

Lemma index_tail (ps : list value) (n : nat) : index (tail ps) n = index ps (S n).
Proof. unfold index. by rewrite lookup_tail. Qed.

Lemma fillPriceMap_not_in (ts : list string) (ps : list value)
    (m : gmap string value) (t : string) :
  t ∉ ts → fillPriceMap ts ps m !! t = m !! t.
Proof.
  revert ps m. induction ts as [|t' ts IH]; intros ps m Hnin; simpl; [done|].
  apply not_elem_of_cons in Hnin as [Hne Hnin].
  rewrite IH by done. by apply lookup_insert_ne.
Qed.

Lemma fillPriceMap_last (ts : list string) (ps : list value)
    (m : gmap string value) (n : nat) (t : string) :
  ts !! n = Some t → t ∉ drop (S n) ts →
  fillPriceMap ts ps m !! t = Some (index ps n).
Proof.
  revert ps m n. induction ts as [|t' ts IH]; intros ps m n Hn Hlast; [done|].
  destruct n as [|n]; simpl in *.
  - injection Hn as ->. rewrite drop_0 in Hlast.
    rewrite fillPriceMap_not_in by done. apply lookup_insert_eq.
  - rewrite (IH _ _ n) by done. f_equal. apply index_tail.
Qed.

Lemma prop_point_at (c : cryptoData) (t : string) (x : number) :
  point_at c t x → prop (priceMapOf c) t = VNum x.
Proof.
  intros (n & Ht & Hp & Hlast). unfold prop, priceMapOf.
  rewrite (fillPriceMap_last _ _ _ n) by done. simpl. unfold index. by rewrite Hp.
Qed.

Lemma prop_no_point (c : cryptoData) (t : string) :
  no_point c t → prop (priceMapOf c) t = VUndefined.
Proof.
  intros Hnin. unfold prop, priceMapOf. by rewrite fillPriceMap_not_in.
Qed.

Lemma known_point_at (c : cryptoData) (t : string) (x : number) :
  point_at c t x → known (priceMapOf c) t = true.
Proof. intros H. unfold known. by rewrite (prop_point_at c t x). Qed.

Lemma known_no_point (c : cryptoData) (t : string) :
  no_point c t → known (priceMapOf c) t = false.
Proof. intros H. unfold known. by rewrite prop_no_point. Qed.

(** *** The two scans *)

Lemma findBefore_None (m : gmap string value) (l : list string) (i : nat) :
  (∀ j t, j < i → l !! j = Some t → known m t = false) →
  findBefore m l i = None.
Proof.
  induction i as [|i IH]; intros Hall; simpl; [done|].
  destruct (l !! i) as [t|] eqn:Hi.
  - rewrite (Hall i t) by (done || lia). apply IH. intros j u Hj. apply Hall. lia.
  - apply IH. intros j u Hj. apply Hall. lia.
Qed.

Lemma findBefore_Some (m : gmap string value) (l : list string) (i j : nat)
    (t : string) :
  j < i → l !! j = Some t → known m t = true →
  (∀ k u, j < k < i → l !! k = Some u → known m u = false) →
  findBefore m l i = Some t.
Proof.
  induction i as [|i IH]; intros Hji Hj Hk Hall; [lia|]. simpl.
  destruct (decide (j = i)) as [->|Hne].
  - by rewrite Hj, Hk.
  - destruct (l !! i) as [u|] eqn:Hi.
    + rewrite (Hall i u) by (done || lia).
      apply IH; [lia|done|done|]. intros k v Hk'. apply Hall. lia.
    + apply IH; [lia|done|done|]. intros k v Hk'. apply Hall. lia.
Qed.

Lemma findAfter_None (m : gmap string value) (rest : list string) :
  (∀ k t, rest !! k = Some t → known m t = false) →
  findAfter m rest = None.
Proof.
  induction rest as [|t rest IH]; intros Hall; simpl; [done|].
  rewrite (Hall 0 t) by done. apply IH. intros k u Hk. by apply (Hall (S k)).
Qed.

Lemma findAfter_Some (m : gmap string value) (rest : list string) (k : nat)
    (t : string) :
  rest !! k = Some t → known m t = true →
  (∀ k' u, k' < k → rest !! k' = Some u → known m u = false) →
  findAfter m rest = Some t.
Proof.
  revert k. induction rest as [|u rest IH]; intros k Hk Hkn Hall; [done|]. simpl.
  destruct k as [|k]; simpl in Hk.
  - injection Hk as ->. by rewrite Hkn.
  - rewrite (Hall 0 u) by (done || lia).
    apply (IH k); [done|done|]. intros k' v Hk' Hv. apply (Hall (S k')); [lia|done].
Qed.

(** *** The value pushed at one index *)

Lemma interpolate_known (m : gmap string value) (l : list string) (i : nat)
    (t : string) :
  known m t = true → interpolate getTime m l i t = prop m t.
Proof. intros H. unfold interpolate. by rewrite H. Qed.

Lemma truthy_Some (t : string) : t ≠ EmptyString → truthy (Some t) = Some t.
Proof. intros H. simpl. by destruct (decide (t = EmptyString)). Qed.

Lemma interpolate_after_only (m : gmap string value) (l : list string) (i : nat)
    (t after : string) :
  known m t = false →
  findBefore m l i = None →
  findAfter m (drop (S i) l) = Some after → after ≠ EmptyString →
  interpolate getTime m l i t = prop m after.
Proof.
  intros Hk Hb Ha Hne. unfold interpolate.
  by rewrite Hk, Hb, Ha, truthy_Some.
Qed.

Lemma interpolate_before_only (m : gmap string value) (l : list string) (i : nat)
    (t before : string) :
  known m t = false →
  findBefore m l i = Some before → before ≠ EmptyString →
  findAfter m (drop (S i) l) = None →
  interpolate getTime m l i t = prop m before.
Proof.
  intros Hk Hb Hne Ha. unfold interpolate.
  by rewrite Hk, Hb, Ha, truthy_Some.
Qed.

Lemma interpolate_neither (m : gmap string value) (l : list string) (i : nat)
    (t : string) :
  known m t = false →
  findBefore m l i = None →
  findAfter m (drop (S i) l) = None →
  interpolate getTime m l i t = VNull.
Proof. intros Hk Hb Ha. unfold interpolate. by rewrite Hk, Hb, Ha. Qed.

Lemma interpolate_between (m : gmap string value) (l : list string) (i : nat)
    (t before after : string) :
  known m t = false →
  findBefore m l i = Some before → before ≠ EmptyString →
  findAfter m (drop (S i) l) = Some after → after ≠ EmptyString →
  interpolate getTime m l i t
  = VNum (num_add (toNumber (prop m before))
            (num_mul (num_div (num_sub (getTime t) (getTime before))
                              (num_sub (getTime after) (getTime before)))
                     (num_sub (toNumber (prop m after)) (toNumber (prop m before))))).
Proof.
  intros Hk Hb Hbne Ha Hane. unfold interpolate.
  by rewrite Hk, Hb, Ha, !truthy_Some.
Qed.

Lemma lookup_interpolatedPrices (l : list string) (c : cryptoData) (i : nat) :
  interpolatedPrices (alignSeries getTime l c) !! i
  = interpolate getTime (priceMapOf c) l i <$> l !! i.
Proof. simpl. apply list_lookup_imap. Qed.

Lemma lookup_processedCryptos (data : list cryptoData) (k : nat) :
  processedCryptos (processChartData getTime data) !! k
  = alignSeries getTime (labels (processChartData getTime data)) <$> data !! k.
Proof. simpl. apply list_lookup_fmap. Qed.

(** *** One aligned series against an arbitrary list of labels *)

Lemma aligned_at_point (l : list string) (c : cryptoData) (i : nat)
    (t : string) (x : number) :
  l !! i = Some t → point_at c t x →
  interpolatedPrices (alignSeries getTime l c) !! i = Some (VNum x).
Proof.
  intros Hi Hp. rewrite lookup_interpolatedPrices, Hi. simpl.
  rewrite interpolate_known by by apply (known_point_at c t x).
  by rewrite (prop_point_at c t x).
Qed.

Lemma aligned_before_first (l : list string) (c : cryptoData) (i j : nat)
    (t : string) (x : number) :
  l !! j = Some t → t ≠ EmptyString → point_at c t x →
  (∀ j' t', j' < j → l !! j' = Some t' → no_point c t') →
  i < j →
  interpolatedPrices (alignSeries getTime l c) !! i = Some (VNum x).
Proof.
  intros Hj Hne Hp Hnone Hij.
  destruct (lookup_lt_is_Some_2 l i) as [ti Hi].
  { apply lookup_lt_Some in Hj. lia. }
  rewrite lookup_interpolatedPrices, Hi. simpl. f_equal.
  rewrite (interpolate_after_only _ _ _ _ t).
  - by apply prop_point_at.
  - apply known_no_point, (Hnone i); done.
  - apply findBefore_None. intros j' t' Hj' Ht'.
    apply known_no_point, (Hnone j'); [lia|done].
  - apply (findAfter_Some _ _ (j - S i)).
    + rewrite lookup_drop. replace (S i + (j - S i)) with j by lia. done.
    + by apply (known_point_at c t x).
    + intros k' u Hk' Hu. rewrite lookup_drop in Hu.
      apply known_no_point, (Hnone (S i + k')); [lia|done].
  - done.
Qed.

Lemma aligned_after_last (l : list string) (c : cryptoData) (i j : nat)
    (t : string) (x : number) :
  l !! j = Some t → t ≠ EmptyString → point_at c t x →
  (∀ j' t', j < j' → l !! j' = Some t' → no_point c t') →
  j < i < length l →
  interpolatedPrices (alignSeries getTime l c) !! i = Some (VNum x).
Proof.
  intros Hj Hne Hp Hnone [Hji Hil].
  destruct (lookup_lt_is_Some_2 l i Hil) as [ti Hi].
  rewrite lookup_interpolatedPrices, Hi. simpl. f_equal.
  rewrite (interpolate_before_only _ _ _ _ t).
  - by apply prop_point_at.
  - apply known_no_point, (Hnone i); done.
  - apply (findBefore_Some _ _ _ j); [done|done|by apply (known_point_at c t x)|].
    intros k u Hk Hu. apply known_no_point, (Hnone k); [lia|done].
  - done.
  - apply findAfter_None. intros k u Hu. rewrite lookup_drop in Hu.
    apply known_no_point, (Hnone (S i + k)); [lia|done].
Qed.

(** A series without timestamps aligns to [null] everywhere. *)
Lemma aligned_empty (l : list string) (c : cryptoData) :
  timestamps c = [] →
  interpolatedPrices (alignSeries getTime l c) = replicate (length l) VNull.
Proof.
  intros He. apply list_eq. intros i. rewrite lookup_interpolatedPrices.
  assert (Hk : ∀ t, known (priceMapOf c) t = false).
  { intros t. apply known_no_point. unfold no_point. rewrite He. apply not_elem_of_nil. }
  destruct (l !! i) as [t|] eqn:Hi; simpl.
  - rewrite interpolate_neither.
    + symmetry. apply lookup_replicate_2. by apply lookup_lt_Some in Hi.
    + apply Hk.
    + apply findBefore_None. intros. apply Hk.
    + apply findAfter_None. intros. apply Hk.
  - symmetry. apply lookup_replicate_None. by apply lookup_ge_None in Hi.
Qed.

(** *** Interpolation between two known points *)

(** The interpolated value between the nearest known points [(t0, p0)]
    before and [(t1, p1)] after, when the three dates are valid and the
    dates of [t0] and [t1] differ. *)
Lemma interpolation_formula (l : list string) (c : cryptoData) (i j0 j1 : nat)
    (t t0 t1 : string) (p0 p1 a b d : Qc) :
  l !! i = Some t → no_point c t →
  j0 < i → l !! j0 = Some t0 → t0 ≠ EmptyString → point_at c t0 (Fin p0) →
  (∀ k u, j0 < k < i → l !! k = Some u → no_point c u) →
  i < j1 → l !! j1 = Some t1 → t1 ≠ EmptyString → point_at c t1 (Fin p1) →
  (∀ k u, i < k < j1 → l !! k = Some u → no_point c u) →
  getTime t0 = Fin a → getTime t = Fin b → getTime t1 = Fin d → a ≠ d →
  interpolatedPrices (alignSeries getTime l c) !! i
  = Some (VNum (Fin (p0 + (p1 - p0) * (b - a) / (d - a))%Qc)).
Proof.
  intros Hi Hnp Hj0 Ht0 Hne0 Hp0 Hgap0 Hj1 Ht1 Hne1 Hp1 Hgap1 Ha Hb Hd Had.
  rewrite lookup_interpolatedPrices, Hi. simpl. f_equal.
  rewrite (interpolate_between _ _ _ _ t0 t1).
  - rewrite (prop_point_at c t0 (Fin p0)), (prop_point_at c t1 (Fin p1)) by done.
    rewrite Ha, Hb, Hd. simpl.
    assert (Hda : (d + - a)%Qc ≠ Q2Qc 0).
    { intros H0. apply Had. rewrite <- (Qcplus_0_l a), <- H0. ring. }
    destruct (decide ((d + - a)%Qc = Q2Qc 0)) as [?|_]; [done|].
    simpl. do 2 f_equal. field. done.
  - by apply known_no_point.
  - apply (findBefore_Some _ _ _ j0); [done|done|by apply (known_point_at c t0 (Fin p0))|].
    intros k u Hk Hu. apply known_no_point, (Hgap0 k); done.
  - done.
  - apply (findAfter_Some _ _ (j1 - S i)).
    + rewrite lookup_drop. replace (S i + (j1 - S i)) with j1 by lia. done.
    + by apply (known_point_at c t1 (Fin p1)).
    + intros k' u Hk' Hu. rewrite lookup_drop in Hu.
      apply known_no_point, (Hgap1 (S i + k')); [lia|done].
  - done.
Qed.

(** When the date of the index lies between the dates of the two known
    points, the interpolated value lies between their prices. *)
Lemma interpolation_bounds (p0 p1 a b d : Qc) :
  (a <= b)%Qc → (b <= d)%Qc → (a < d)%Qc →
  let v := (p0 + (p1 - p0) * (b - a) / (d - a))%Qc in
  ((p0 <= p1)%Qc → (p0 <= v)%Qc ∧ (v <= p1)%Qc) ∧
  ((p1 <= p0)%Qc → (p1 <= v)%Qc ∧ (v <= p0)%Qc).
Proof.
  intros Hab Hbd Had v.
  assert (Hda : (0 < d - a)%Qc) by (apply minus_pos; [by apply Qclt_le_weak|by apply Qclt_not_eq]).
  assert (Hda0 : (d - a)%Qc ≠ Q2Qc 0) by (intros H0; rewrite H0 in Hda; by apply (Qclt_not_eq 0 0)).
  assert (Hr0 : (0 <= (b - a) / (d - a))%Qc).
  { apply (Qcmult_lt_0_le_reg_r _ _ (d - a)%Qc Hda).
    replace ((b - a) / (d - a) * (d - a))%Qc with (b - a)%Qc by (field; done).
    replace (0 * (d - a))%Qc with (Q2Qc 0) by ring. by apply minus_nonneg. }
  assert (Hr1 : ((b - a) / (d - a) <= 1)%Qc).
  { apply (Qcmult_lt_0_le_reg_r _ _ (d - a)%Qc Hda).
    replace ((b - a) / (d - a) * (d - a))%Qc with (b - a)%Qc by (field; done).
    replace (1 * (d - a))%Qc with (d - a)%Qc by ring. by apply minus_le_minus. }
  set (r := ((b - a) / (d - a))%Qc) in *.
  assert (Hv : v = (p0 + r * (p1 - p0))%Qc) by (unfold v, r; field; done).
  assert (Hv' : v = (p1 + (1 - r) * (p0 - p1))%Qc) by (unfold v, r; field; done).
  assert (Hr1' : (0 <= 1 - r)%Qc) by by apply minus_nonneg.
  split; intros Hp.
  - split.
    + rewrite Hv. rewrite <- (Qcplus_0_r p0) at 1.
      apply Qcplus_le_compat; [apply Qcle_refl|].
      apply Qcmult_nonneg_nonneg; [done|by apply minus_nonneg].
    + rewrite Hv. replace p1 with (p0 + 1 * (p1 - p0))%Qc at 2 by ring.
      apply Qcplus_le_compat; [apply Qcle_refl|].
      apply Qcmult_le_compat_r; [done|by apply minus_nonneg].
  - split.
    + rewrite Hv'. rewrite <- (Qcplus_0_r p1) at 1.
      apply Qcplus_le_compat; [apply Qcle_refl|].
      apply Qcmult_nonneg_nonneg; [done|by apply minus_nonneg].
    + rewrite Hv. rewrite <- (Qcplus_0_r p0) at 3.
      apply Qcplus_le_compat; [apply Qcle_refl|].
      replace (Q2Qc 0) with (r * 0)%Qc by ring.
      rewrite !(Qcmult_comm r). apply Qcmult_le_compat_r; [|done].
      apply Qcle_minus_iff. replace (0 + - (p1 - p0))%Qc with (p0 - p1)%Qc by ring.
      by apply minus_nonneg.
Qed.

(** *** The aligned series of [processChartData] *)

(** C5. For every series [c] of the batch and every timestamp [t] at which
    [c] has a point with price [x], [t] has an index in the timeline and the
    aligned value of [c] at that index is [x] itself. *)
Theorem exact_value_preserved (data : list cryptoData) (k : nat)
    (c : cryptoData) (t : string) (x : number) :
  data !! k = Some c → point_at c t x →
  ∃ pc, processedCryptos (processChartData getTime data) !! k = Some pc ∧
        pc_symbol pc = symbol c ∧
        (∃ i, labels (processChartData getTime data) !! i = Some t) ∧
        ∀ i, labels (processChartData getTime data) !! i = Some t →
             interpolatedPrices pc !! i = Some (VNum x).
Proof.
  intros Hk Hp.
  exists (alignSeries getTime (labels (processChartData getTime data)) c).
  split; [by rewrite lookup_processedCryptos, Hk|]. split; [done|]. split.
  - apply list_elem_of_lookup, elem_of_labels. exists c. split.
    + apply list_elem_of_lookup. eauto.
    + destruct Hp as (n & Hn & _). apply list_elem_of_lookup. eauto.
  - intros i Hi. by apply (aligned_at_point _ _ _ t).
Qed.

(** C4. For a series [c] of the batch with a point [(t, x)] at timeline
    index [j]: if [c] has no point at any earlier index, every index before
    [j] receives [x]; if [c] has no point at any later index, every index
    after [j] receives [x], [t] being a non-empty string as every timestamp
    is (the code takes an empty [beforeTimestamp] for a missing one). In
    particular a series with the single point [(t2, x)] on the timeline
    [t1, t2, t3] aligns to [x, x, x]. *)
Theorem edge_extrapolation (data : list cryptoData) (k : nat) (c : cryptoData) :
  data !! k = Some c →
  ∃ pc, processedCryptos (processChartData getTime data) !! k = Some pc ∧
    (∀ i j t x,
       labels (processChartData getTime data) !! j = Some t → point_at c t x →
       (∀ j' t', j' < j → labels (processChartData getTime data) !! j' = Some t' →
                 no_point c t') →
       i < j →
       interpolatedPrices pc !! i = Some (VNum x)) ∧
    (∀ i j t x,
       labels (processChartData getTime data) !! j = Some t → point_at c t x →
       t ≠ EmptyString →
       (∀ j' t', j < j' → labels (processChartData getTime data) !! j' = Some t' →
                 no_point c t') →
       j < i < length (labels (processChartData getTime data)) →
       interpolatedPrices pc !! i = Some (VNum x)) ∧
    (∀ t1 t2 t3 x,
       labels (processChartData getTime data) = [t1; t2; t3] →
       timestamps c = [t2] → prices c = [VNum x] →
       interpolatedPrices pc = [VNum x; VNum x; VNum x]).
Proof.
  intros Hk.
  exists (alignSeries getTime (labels (processChartData getTime data)) c).
  split; [by rewrite lookup_processedCryptos, Hk|].
  assert (Hfirst : ∀ i j t x,
    labels (processChartData getTime data) !! j = Some t → point_at c t x →
    (∀ j' t', j' < j → labels (processChartData getTime data) !! j' = Some t' →
              no_point c t') →
    i < j →
    interpolatedPrices
      (alignSeries getTime (labels (processChartData getTime data)) c) !! i
    = Some (VNum x)).
  { intros i j t x Hj Hp Hnone Hij.
    apply (aligned_before_first _ _ _ j t); [done| |done|done|done].
    destruct (lookup_lt_is_Some_2 (labels (processChartData getTime data)) i)
      as [ti Hi].
    { apply lookup_lt_Some in Hj. lia. }
    intros ->. exact (str_lt_empty ti (labels_increasing data i j _ _ Hij Hi Hj)). }
  split; [exact Hfirst|]. split.
  - intros i j t x Hj Hp Hne Hnone Hij.
    by apply (aligned_after_last _ _ _ j t).
  - intros t1 t2 t3 x Hl Hts Hps.
    assert (Hp : point_at c t2 x).
    { exists 0. rewrite Hts, Hps. split; [done|]. split; [done|]. apply not_elem_of_nil. }
    assert (H12 : str_lt t1 t2)
      by (apply (labels_increasing data 0 1); [lia|by rewrite Hl|by rewrite Hl]).
    assert (H23 : str_lt t2 t3)
      by (apply (labels_increasing data 1 2); [lia|by rewrite Hl|by rewrite Hl]).
    assert (Hne : t2 ≠ EmptyString) by (intros ->; exact (str_lt_empty t1 H12)).
    assert (Hn1 : no_point c t1).
    { unfold no_point. rewrite Hts. intros ->%list_elem_of_singleton.
      apply str_lt_le_ne in H12. by destruct H12. }
    assert (Hn3 : no_point c t3).
    { unfold no_point. rewrite Hts. intros ->%list_elem_of_singleton.
      apply str_lt_le_ne in H23. by destruct H23. }
    pose proof (Hfirst 0 1 t2 x) as H0.
    pose proof (aligned_at_point (labels (processChartData getTime data)) c 1 t2 x) as H1.
    pose proof (aligned_after_last (labels (processChartData getTime data)) c 2 1 t2 x) as H2.
    rewrite Hl in H0, H1, H2 |- *. simpl in H0, H1, H2 |- *.
    assert (E0 : ∀ j' t', j' < 1 → [t1; t2; t3] !! j' = Some t' → no_point c t').
    { intros [|j'] t' Hj' Ht'; [|lia]. by injection Ht' as <-. }
    assert (E2 : ∀ j' t', 1 < j' → [t1; t2; t3] !! j' = Some t' → no_point c t').
    { intros [|[|[|j']]] t' Hj' Ht'; try lia; [|done]. by injection Ht' as <-. }
    specialize (H0 eq_refl Hp E0 ltac:(lia)).
    specialize (H1 eq_refl Hp).
    specialize (H2 eq_refl Hne Hp E2 ltac:(lia)).
    injection H0 as ->. injection H1 as ->. injection H2 as ->. done.
Qed.

(** C6. For every batch in which one series [e] has no points, the
    alignment returns a result, the aligned values of [e] are all [null],
    and the timeline and the aligned values of the other series are those
    of the batch without [e]. *)
Theorem empty_series_harmless (before after : list cryptoData) (e : cryptoData) :
  timestamps e = [] →
  labels (processChartData getTime (before ++ e :: after))
  = labels (processChartData getTime (before ++ after)) ∧
  processedCryptos (processChartData getTime (before ++ e :: after))
  = take (length before) (processedCryptos (processChartData getTime (before ++ after)))
    ++ {| pc_symbol := symbol e;
          interpolatedPrices :=
            replicate (length (labels (processChartData getTime (before ++ after)))) VNull |}
    :: drop (length before) (processedCryptos (processChartData getTime (before ++ after))).
Proof.
  intros He.
  assert (Hall : allTimestamps (before ++ e :: after) = allTimestamps (before ++ after)).
  { unfold allTimestamps. rewrite !foldl_app. simpl. by rewrite He. }
  split; [simpl; by rewrite Hall|].
  simpl. rewrite Hall. rewrite !fmap_app, fmap_cons.
  set (f := alignSeries getTime (Array_sort (allTimestamps (before ++ after)))).
  rewrite <- (length_fmap f before).
  rewrite take_app_length, drop_app_length. do 2 f_equal.
  unfold f, alignSeries at 1. f_equal. by apply aligned_empty.
Qed.

End Alignment.

(** ** The time-range filter *)

Section Fetch.

Variable getTime : string → number.

Lemma withinRange_undefined (now : Z) (t : string) :
  withinRange getTime now None t = false.
Proof. unfold withinRange, num_geb. simpl. by destruct (getTime t). Qed.

Lemma filterLoop_undefined (now : Z) (data_prices : list value) (i : nat)
    (ts : list string) :
  filterLoop getTime now None data_prices i ts = [].
Proof.
  revert i. induction ts as [|t ts IH]; intros i; cbn [filterLoop]; [done|].
  by rewrite withinRange_undefined.
Qed.

Lemma elem_of_filterLoop (now : Z) (cutoff : option number)
    (data_prices : list value) (i : nat) (ts : list string) (t : string) :
  t ∈ (filterLoop getTime now cutoff data_prices i ts).*1 →
  t ∈ ts ∧ withinRange getTime now cutoff t = true.
Proof.
  revert i. induction ts as [|u ts IH]; intros i; cbn [filterLoop].
  - by intros ?%elem_of_nil.
  - destruct (withinRange getTime now cutoff u) eqn:Hu; cbn [fmap list_fmap fst].
    + intros [->|Hin]%elem_of_cons.
      * split; [left|done].
      * destruct (IH _ Hin). split; [by right|done].
    + intros Hin. destruct (IH _ Hin). split; [by right|done].
Qed.

(** Only timestamps with a valid date, not later than the current time,
    leave [fetchHistoricalData]; the empty string, whose date is invalid,
    is not among them. *)
Lemma fetched_timestamp_dated (data : history) (now : Z) (sym timeRange : string)
    (t : string) :
  t ∈ timestamps (fetchHistoricalData getTime data now sym timeRange) →
  num_leb (getTime t) (num now) = true.
Proof.
  intros [_ Hin]%elem_of_filterLoop. unfold withinRange in Hin.
  by apply andb_prop in Hin as [_ ?].
Qed.

Lemma fetched_timestamp_nonempty (data : history) (now : Z)
    (sym timeRange : string) (t : string) :
  getTime EmptyString = NaN →
  t ∈ timestamps (fetchHistoricalData getTime data now sym timeRange) →
  t ≠ EmptyString.
Proof.
  intros Hnan Hin%fetched_timestamp_dated ->. by rewrite Hnan in Hin.
Qed.

(** C10. For every symbol and every time range other than ['24h'], ['7d']
    and ['1m'], the cutoff time is left undefined, no timestamp passes the
    range test, and [fetchHistoricalData] returns empty [timestamps] and
    [prices] (a result, not an error). *)
Theorem unknown_range_discards_all (data : history) (now : Z)
    (sym timeRange : string) :
  timeRange ≠ "24h"%string → timeRange ≠ "7d"%string → timeRange ≠ "1m"%string →
  cutoffTime now timeRange = None ∧
  (∀ t, withinRange getTime now (cutoffTime now timeRange) t = false) ∧
  fetchHistoricalData getTime data now sym timeRange
  = {| symbol := sym; timestamps := []; prices := [] |}.
Proof.
  intros H24 H7 H1.
  assert (Hc : cutoffTime now timeRange = None).
  { unfold cutoffTime. by repeat case_decide. }
  split; [done|]. split.
  - intros t. rewrite Hc. apply withinRange_undefined.
  - unfold fetchHistoricalData. by rewrite Hc, filterLoop_undefined.
Qed.

End Fetch.

(** ** The pipeline at concrete series *)

Section Evaluation.

Import Scenario.

(** Closed equalities between values of the pipeline are decided by
    evaluation. *)
Ltac by_evaluation := apply (bool_decide_eq_true_1 _); vm_compute; reflexivity.

(** The worked example: BTC is interpolated at [t2], ETH is extended flat
    in both directions. *)
Lemma worked_example :
  processChartData Date.utcTime [BTC; ETH]
  = {| labels := [t1; t2; t3];
       processedCryptos :=
         [ {| pc_symbol := "btc";
              interpolatedPrices := [VNum (num 100); VNum (num 105); VNum (num 110)] |};
           {| pc_symbol := "eth";
              interpolatedPrices := [VNum (num 50); VNum (num 50); VNum (num 50)] |} ] |}.
Proof. by_evaluation. Qed.

(** The two charts of the worked example: ETH, aligned to the constant
    [50, 50, 50], has no min-max normalization. *)
Lemma worked_example_charts :
  renderMinMaxChart (processChartData Date.utcTime [BTC; ETH])
  = [ [VNum (num 0); VNum (num 50); VNum (num 100)];
      [VNum NaN; VNum NaN; VNum NaN] ] ∧
  renderZeroBasedChart (processChartData Date.utcTime [BTC; ETH])
  = [ [VNum (Fin (Q2Qc (1000 # 11))); VNum (Fin (Q2Qc (1050 # 11))); VNum (num 100)];
      [VNum (num 100); VNum (num 100); VNum (num 100)] ].
Proof. split; by_evaluation. Qed.

(** C1. The timeline is the sorted, duplicate-free union of the timestamps
    for the code-unit order of the strings ([elem_of_labels], [NoDup_labels],
    [labels_increasing]), not for their dates: for a series sampled at
    midnight [u0] and half a second later [u1], the timeline is [u1, u0],
    the later date first. *)
Theorem timeline_not_chronological :
  labels (processChartData Date.utcTime [mixed]) = [u1; u0] ∧
  Date.utcTime u0 = num 1704067200000 ∧
  Date.utcTime u1 = num 1704067200500 ∧
  ¬ chronological Date.utcTime (labels (processChartData Date.utcTime [mixed])).
Proof.
  split; [by vm_compute|]. split; [by vm_compute|]. split; [by vm_compute|].
  intros H. specialize (H 0 u1 u0). vm_compute in H.
  specialize (H eq_refl eq_refl). discriminate.
Qed.

(** C2. The interpolated value follows the formula ([interpolation_formula])
    and lies between the two prices when the date of the index lies between
    the dates of the two known points ([interpolation_bounds]); the timeline
    being ordered by code units, it need not: between [(u1, 100)] and
    [(u2, 110)] the index of [u0] receives 90. *)
Theorem interpolation_outside_bounds :
  processChartData Date.utcTime [halfSecond; midnight]
  = {| labels := [u1; u0; u2];
       processedCryptos :=
         [ {| pc_symbol := "btc";
              interpolatedPrices := [VNum (num 100); VNum (num 90); VNum (num 110)] |};
           {| pc_symbol := "eth";
              interpolatedPrices := [VNum (num 50); VNum (num 50); VNum (num 50)] |} ] |} ∧
  num_ltb (num 90) (num 100) = true ∧
  num_ltb (num 90) (num 110) = true.
Proof. split; [by_evaluation|]. split; reflexivity. Qed.

(** C3. The code divides by the zero range of a constant series and has no
    fallback: the min-max policy maps [5, 5] to [NaN, NaN], not to
    [50, 50], and the zero-based policy maps [0, 0] to [NaN, NaN], not to
    [0, 0]. Nothing is raised, and [NaN] is outside the range from 0 to 100
    that the comment above the normalization announces. *)
Theorem constant_series_no_fallback :
  minMaxNormalizedPrices [VNum (num 5); VNum (num 5)] = [VNum NaN; VNum NaN] ∧
  minMaxNormalizedPrices [VNum (num 5); VNum (num 5)] ≠ [VNum (num 50); VNum (num 50)] ∧
  zeroBasedNormalizedPrices [VNum (num 0); VNum (num 0)] = [VNum NaN; VNum NaN] ∧
  zeroBasedNormalizedPrices [VNum (num 0); VNum (num 0)] ≠ [VNum (num 0); VNum (num 0)] ∧
  within 0 100 (VNum NaN) = false.
Proof.
  assert (H1 : minMaxNormalizedPrices [VNum (num 5); VNum (num 5)] = [VNum NaN; VNum NaN])
    by by_evaluation.
  assert (H2 : zeroBasedNormalizedPrices [VNum (num 0); VNum (num 0)] = [VNum NaN; VNum NaN])
    by by_evaluation.
  split; [done|]. split; [by rewrite H1|]. split; [done|].
  split; [by rewrite H2|reflexivity].
Qed.

(** C7, the claim as stated fails: the zero-based policy maps [50, 100] to
    [50, 100], and 50 is outside [90, 100]; the min-max policy maps the
    constant series [5, 5] to [NaN, NaN], outside [0, 100]. *)
Lemma normalized_outside_range :
  zeroBasedNormalizedPrices [VNum (num 50); VNum (num 100)]
  = [VNum (num 50); VNum (num 100)] ∧
  within 90 100 (VNum (num 50)) = false ∧
  minMaxNormalizedPrices [VNum (num 5); VNum (num 5)] = [VNum NaN; VNum NaN] ∧
  within 0 100 (VNum NaN) = false.
Proof.
  split; [by_evaluation|]. split; [reflexivity|]. split; [by_evaluation|reflexivity].
Qed.

(** The ['24h'] range keeps the points of the last day. *)
Lemma known_range_keeps_last_day :
  fetchHistoricalData Date.utcTime response now "btc" "24h"
  = {| symbol := "btc"; timestamps := [t1; t3];
       prices := [VNum (num 100); VNum (num 110)] |}.
Proof. by_evaluation. Qed.

(** The series of the two scenarios with mixed precisions are what
    [fetchHistoricalData] returns for responses holding them: their dates
    are valid and within the last day. *)
Lemma mixed_precision_series_are_fetched :
  fetchHistoricalData Date.utcTime
    {| h_timestamps := timestamps mixed; h_prices := prices mixed |} now "btc" "24h"
  = mixed ∧
  fetchHistoricalData Date.utcTime
    {| h_timestamps := timestamps halfSecond; h_prices := prices halfSecond |} now "btc" "24h"
  = halfSecond ∧
  fetchHistoricalData Date.utcTime
    {| h_timestamps := timestamps midnight; h_prices := prices midnight |} now "eth" "24h"
  = midnight.
Proof. repeat split; by_evaluation. Qed.

(** *** The theorems at the scenarios *)

Lemma constant_series_normalization_witness :
  minMaxNormalizedPrices [VNum (num 5); VNull; VNum (num 5)] !! 0 = Some (VNum NaN) ∧
  zeroBasedNormalizedPrices [VNum (num 5); VNull; VNum (num 5)] !! 0
  = Some (VNum (num 100)).
Proof.
  assert (Hc : constant_series [VNum (num 5); VNull; VNum (num 5)] (qz 5)).
  { intros v Hv. repeat (apply elem_of_cons in Hv as [->|Hv]); auto.
    by apply elem_of_nil in Hv. }
  destruct (constant_series_normalization _ _ Hc) as (_ & _ & Hmm & Hzb).
  split; [exact (Hmm 0 eq_refl)|exact (Hzb 0 eq_refl)].
Defined.

Lemma normalized_range_witness :
  Forall (λ v, within 0 100 v = true)
         (minMaxNormalizedPrices [VNum (num 50); VNum (num 100)]) ∧
  Forall (λ v, within 0 100 v = true)
         (zeroBasedNormalizedPrices [VNum (num 50); VNum (num 100)]).
Proof.
  assert (Hmin : series_min [VNum (num 50); VNum (num 100)] (qz 50)).
  { split; [left|]. intros v Hv _.
    repeat (apply elem_of_cons in Hv as [->|Hv]); [reflexivity..|].
    by apply elem_of_nil in Hv. }
  assert (Hmax : series_max [VNum (num 50); VNum (num 100)] (qz 100)).
  { split; [right; left|]. intros v Hv _.
    repeat (apply elem_of_cons in Hv as [->|Hv]); [reflexivity..|].
    by apply elem_of_nil in Hv. }
  destruct (normalized_range _ _ _ Hmin Hmax) as [Hmm Hzb].
  split; apply Forall_forall.
  - apply Hmm. discriminate.
  - apply Hzb; [by vm_compute|reflexivity].
Defined.

Lemma minMax_extremes_witness :
  minMaxNormalizedPrices [VNum (num 100); VNum (num 105); VNum (num 110)] !! 0
  = Some (VNum (num 0)) ∧
  minMaxNormalizedPrices [VNum (num 100); VNum (num 105); VNum (num 110)] !! 2
  = Some (VNum (num 100)).
Proof.
  assert (Hmin : series_min [VNum (num 100); VNum (num 105); VNum (num 110)] (qz 100)).
  { split; [left|]. intros v Hv _.
    repeat (apply elem_of_cons in Hv as [->|Hv]); [reflexivity..|].
    by apply elem_of_nil in Hv. }
  assert (Hmax : series_max [VNum (num 100); VNum (num 105); VNum (num 110)] (qz 110)).
  { split; [right; right; left|]. intros v Hv _.
    repeat (apply elem_of_cons in Hv as [->|Hv]); [reflexivity..|].
    by apply elem_of_nil in Hv. }
  destruct (minMax_extremes _ _ _ Hmin Hmax ltac:(discriminate)) as (Hlo & Hhi & _).
  split; [exact (Hlo 0 eq_refl)|exact (Hhi 2 eq_refl)].
Defined.

Lemma null_propagation_witness :
  zeroBasedNormalizedPrices [VNum (num 4); VNull] !! 1 = Some VNull ∧
  minMaxNormalizedPrices [VNum (num 4); VNull] !! 1 = Some VNull ∧
  zeroBasedNormalizedPrices [VNull; VNull] = [VNull; VNull] ∧
  minMaxNormalizedPrices [VNull; VNull] = [VNull; VNull].
Proof.
  destruct (null_propagation [VNum (num 4); VNull]) as [Hnull _].
  destruct (null_propagation [VNull; VNull]) as [_ Hall].
  destruct (Hnull 1 eq_refl) as [Hzb Hmm].
  assert (Hn : ∀ v, v ∈ [VNull; VNull] → v = VNull).
  { intros v Hv. repeat (apply elem_of_cons in Hv as [->|Hv]); [reflexivity..|].
    by apply elem_of_nil in Hv. }
  destruct (Hall Hn) as [Hzb' Hmm'].
  split; [exact Hzb|]. split; [exact Hmm|]. split; [exact Hzb'|exact Hmm'].
Defined.

Lemma exact_value_preserved_witness :
  ∃ pc, processedCryptos (processChartData Date.utcTime [BTC; ETH]) !! 0 = Some pc ∧
        interpolatedPrices pc !! 2 = Some (VNum (num 110)).
Proof.
  assert (Hp : point_at BTC t3 (num 110)).
  { exists 1. split; [reflexivity|]. split; [reflexivity|]. apply not_elem_of_nil. }
  destruct (exact_value_preserved Date.utcTime [BTC; ETH] 0 BTC t3 (num 110) eq_refl Hp)
    as (pc & Hpc & _ & _ & Hall).
  exists pc. split; [exact Hpc|]. apply Hall. by vm_compute.
Defined.

Lemma edge_extrapolation_witness :
  ∃ pc, processedCryptos (processChartData Date.utcTime [BTC; ETH]) !! 1 = Some pc ∧
        interpolatedPrices pc !! 0 = Some (VNum (num 50)) ∧
        interpolatedPrices pc !! 2 = Some (VNum (num 50)) ∧
        interpolatedPrices pc = [VNum (num 50); VNum (num 50); VNum (num 50)].
Proof.
  destruct (edge_extrapolation Date.utcTime [BTC; ETH] 1 ETH eq_refl)
    as (pc & Hpc & Hfirst & Hlast & Hsingle).
  assert (Hl : labels (processChartData Date.utcTime [BTC; ETH]) = [t1; t2; t3])
    by by vm_compute.
  assert (Hp : point_at ETH t2 (num 50)).
  { exists 0. split; [reflexivity|]. split; [reflexivity|]. apply not_elem_of_nil. }
  exists pc. split; [exact Hpc|]. split; [|split].
  - apply (Hfirst 0 1 t2); [by rewrite Hl|exact Hp| |lia].
    intros j' t' Hj' Ht'. rewrite Hl in Ht'. destruct j' as [|j']; [|lia].
    injection Ht' as <-. unfold no_point. simpl.
    intros Hin%list_elem_of_singleton. discriminate Hin.
  - apply (Hlast 2 1 t2); [by rewrite Hl|exact Hp|discriminate| |rewrite Hl; simpl; lia].
    intros j' t' Hj' Ht'. rewrite Hl in Ht'.
    destruct j' as [|[|[|j']]]; [lia|lia| |discriminate Ht'].
    injection Ht' as <-. unfold no_point. simpl.
    intros Hin%list_elem_of_singleton. discriminate Hin.
  - apply (Hsingle t1 t2 t3); [exact Hl|reflexivity|reflexivity].
Defined.

Lemma empty_series_harmless_witness :
  labels (processChartData Date.utcTime ([BTC] ++ XRP :: [ETH]))
  = labels (processChartData Date.utcTime ([BTC] ++ [ETH])) ∧
  processedCryptos (processChartData Date.utcTime ([BTC] ++ XRP :: [ETH]))
  = take (length [BTC]) (processedCryptos (processChartData Date.utcTime ([BTC] ++ [ETH])))
    ++ {| pc_symbol := symbol XRP;
          interpolatedPrices :=
            replicate (length (labels (processChartData Date.utcTime ([BTC] ++ [ETH]))))
                      VNull |}
    :: drop (length [BTC])
            (processedCryptos (processChartData Date.utcTime ([BTC] ++ [ETH]))).
Proof. exact (empty_series_harmless Date.utcTime [BTC] [ETH] XRP eq_refl). Defined.

Lemma unknown_range_discards_all_witness :
  fetchHistoricalData Date.utcTime response now "btc" "1y"
  = {| symbol := "btc"; timestamps := []; prices := [] |}.
Proof.
  refine (proj2 (proj2 (unknown_range_discards_all Date.utcTime response now
                          "btc" "1y" _ _ _))); discriminate.
Defined.

End Evaluation.

(** * Further properties of the code *)

(** ** [fetchHistoricalData]: the known ranges *)

Section FetchWindow.

Variable getTime : string → number.

Lemma qz_le (z z' : Z) : (z ≤ z')%Z → (qz z <= qz z')%Qc.
Proof.
  intros H. unfold qz, Qcle, Q2Qc. simpl. rewrite !Qred_correct.
  by rewrite <- Zle_Qle.
Qed.

Lemma num_leb_trans (a b c : number) :
  num_leb a b = true → num_leb b c = true → num_leb a c = true.
Proof.
  destruct a as [x| | |], b as [y| | |], c as [z| | |]; simpl; try done.
  intros H1 H2.
  apply (num_leb_Fin x z). apply Qcle_trans with y; by apply num_leb_Fin.
Qed.

Lemma elem_of_filterLoop_2 (now : Z) (cutoff : option number)
    (data_prices : list value) (i : nat) (ts : list string) (t : string) :
  t ∈ ts → withinRange getTime now cutoff t = true →
  t ∈ (filterLoop getTime now cutoff data_prices i ts).*1.
Proof.
  intros Hin Hw. revert i. induction ts as [|u ts IH]; intros i; cbn [filterLoop].
  - by apply elem_of_nil in Hin.
  - apply elem_of_cons in Hin as [<-|Hin].
    + rewrite Hw. left.
    + destruct (withinRange getTime now cutoff u); [right|]; by apply IH.
Qed.

Lemma withinRange_Some (now : Z) (c : number) (t : string) :
  withinRange getTime now (Some c) t = true
  ↔ num_leb c (getTime t) = true ∧ num_leb (getTime t) (num now) = true.
Proof. unfold withinRange, num_geb. simpl. apply andb_true_iff. Qed.

Lemma elem_of_fetched (data : history) (now : Z) (sym timeRange : string)
    (c : number) (t : string) :
  cutoffTime now timeRange = Some c →
  t ∈ timestamps (fetchHistoricalData getTime data now sym timeRange)
  ↔ t ∈ h_timestamps data ∧
    num_leb c (getTime t) = true ∧ num_leb (getTime t) (num now) = true.
Proof.
  intros Hc. unfold fetchHistoricalData. simpl. rewrite Hc.
  rewrite <- withinRange_Some. split.
  - apply elem_of_filterLoop.
  - intros [? ?]. by apply elem_of_filterLoop_2.
Qed.

(** X1. For the three known ranges, [fetchHistoricalData] keeps exactly the
    timestamps of the response whose date lies in the closed window that
    ends at the current time and spans 24 hours (86,400,000 ms), 7 days
    (604,800,000 ms) or 30 days (2,592,000,000 ms). *)
Theorem fetch_keeps_the_window (data : history) (now : Z) (sym t : string) :
  (t ∈ timestamps (fetchHistoricalData getTime data now sym "24h")
   ↔ t ∈ h_timestamps data ∧
     num_leb (num (now - 86400000)) (getTime t) = true ∧
     num_leb (getTime t) (num now) = true) ∧
  (t ∈ timestamps (fetchHistoricalData getTime data now sym "7d")
   ↔ t ∈ h_timestamps data ∧
     num_leb (num (now - 604800000)) (getTime t) = true ∧
     num_leb (getTime t) (num now) = true) ∧
  (t ∈ timestamps (fetchHistoricalData getTime data now sym "1m")
   ↔ t ∈ h_timestamps data ∧
     num_leb (num (now - 2592000000)) (getTime t) = true ∧
     num_leb (getTime t) (num now) = true).
Proof. split; [|split]; by apply elem_of_fetched. Qed.

Lemma filterLoop_sublist (now : Z) (c1 c2 : option number)
    (data_prices : list value) (i : nat) (ts : list string) :
  (∀ t, withinRange getTime now c1 t = true → withinRange getTime now c2 t = true) →
  filterLoop getTime now c1 data_prices i ts
  `sublist_of` filterLoop getTime now c2 data_prices i ts.
Proof.
  intros Himp. revert i. induction ts as [|u ts IH]; intros i; cbn [filterLoop].
  - constructor.
  - destruct (withinRange getTime now c1 u) eqn:H1.
    + rewrite (Himp u H1). by apply sublist_skip.
    + destruct (withinRange getTime now c2 u); [apply sublist_cons|]; apply IH.
Qed.

Lemma withinRange_earlier_cutoff (now z z' : Z) (t : string) :
  (z' ≤ z)%Z →
  withinRange getTime now (Some (num z)) t = true →
  withinRange getTime now (Some (num z')) t = true.
Proof.
  intros Hz. rewrite !withinRange_Some. intros [H1 H2]. split; [|done].
  apply num_leb_trans with (num z); [|done]. by apply num_leb_Fin, qz_le.
Qed.

(** X2. Widening the range never loses a point: what ['24h'] keeps is kept
    by ['7d'], and what ['7d'] keeps is kept by ['1m'], in the same order
    and with the same prices. *)
Theorem wider_range_keeps_more (data : history) (now : Z) (sym : string) :
  timestamps (fetchHistoricalData getTime data now sym "24h")
    `sublist_of` timestamps (fetchHistoricalData getTime data now sym "7d") ∧
  prices (fetchHistoricalData getTime data now sym "24h")
    `sublist_of` prices (fetchHistoricalData getTime data now sym "7d") ∧
  timestamps (fetchHistoricalData getTime data now sym "7d")
    `sublist_of` timestamps (fetchHistoricalData getTime data now sym "1m") ∧
  prices (fetchHistoricalData getTime data now sym "7d")
    `sublist_of` prices (fetchHistoricalData getTime data now sym "1m").
Proof.
  assert (H1 : ∀ t, withinRange getTime now (cutoffTime now "24h") t = true →
                    withinRange getTime now (cutoffTime now "7d") t = true).
  { intros t. apply withinRange_earlier_cutoff. lia. }
  assert (H2 : ∀ t, withinRange getTime now (cutoffTime now "7d") t = true →
                    withinRange getTime now (cutoffTime now "1m") t = true).
  { intros t. apply withinRange_earlier_cutoff. lia. }
  unfold fetchHistoricalData. simpl timestamps. simpl prices.
  repeat split; apply fmap_sublist; by apply filterLoop_sublist.
Qed.

(** X3. Whatever the range, a timestamp whose date is invalid or later
    than the current time is not kept. *)
Theorem invalid_or_future_dropped (data : history) (now : Z)
    (sym timeRange t : string) :
  getTime t = NaN ∨ num_ltb (num now) (getTime t) = true →
  t ∉ timestamps (fetchHistoricalData getTime data now sym timeRange).
Proof.
  intros Hbad [_ Hin]%elem_of_filterLoop. unfold withinRange in Hin.
  apply andb_prop in Hin as [_ Hle].
  destruct Hbad as [Hnan|Hlt].
  - by rewrite Hnan in Hle.
  - destruct (getTime t) as [q| | |]; simpl in *; try done.
    destruct (qz now ?= q)%Qc eqn:Hc1; try done.
    assert (Hc2 : (q ?= qz now)%Qc = Gt).
    { unfold Qccompare in *. rewrite <- Qgt_alt. by rewrite <- Qlt_alt in Hc1. }
    by rewrite Hc2 in Hle.
Qed.

Lemma filterLoop_paired (now : Z) (cutoff : option number)
    (data_prices : list value) (i0 : nat) (ts : list string) (n : nat)
    (t : string) :
  (filterLoop getTime now cutoff data_prices i0 ts).*1 !! n = Some t →
  ∃ k, ts !! k = Some t ∧
       (filterLoop getTime now cutoff data_prices i0 ts).*2 !! n
       = Some (index data_prices (i0 + k)).
Proof.
  revert i0 n. induction ts as [|u ts IH]; intros i0 n; cbn [filterLoop]; [done|].
  destruct (withinRange getTime now cutoff u).
  - rewrite !fmap_cons. destruct n as [|n].
    + intros [= ->]. exists 0. split; [done|]. by rewrite Nat.add_0_r.
    + intros Hn. destruct (IH (S i0) n Hn) as (k & Hk & Hp).
      exists (S k). split; [done|].
      change ((filterLoop getTime now cutoff data_prices (S i0) ts).*2 !! n
              = Some (index data_prices (i0 + S k))).
      rewrite Hp. do 2 f_equal. lia.
  - intros Hn. destruct (IH (S i0) n Hn) as (k & Hk & Hp).
    exists (S k). split; [done|]. rewrite Hp. do 2 f_equal. lia.
Qed.

(** X4. The two arrays returned by [fetchHistoricalData] stay parallel:
    they have the same length, the kept timestamps come in the order of
    the response, and the price at a position is [data.prices[i]] for an
    index [i] of the response holding the timestamp at that position
    ([undefined] when the response has no price at [i]). *)
Theorem fetched_arrays_parallel (data : history) (now : Z)
    (sym timeRange : string) :
  length (timestamps (fetchHistoricalData getTime data now sym timeRange))
  = length (prices (fetchHistoricalData getTime data now sym timeRange)) ∧
  timestamps (fetchHistoricalData getTime data now sym timeRange)
    `sublist_of` h_timestamps data ∧
  ∀ n t,
    timestamps (fetchHistoricalData getTime data now sym timeRange) !! n = Some t →
    ∃ i, h_timestamps data !! i = Some t ∧
         prices (fetchHistoricalData getTime data now sym timeRange) !! n
         = Some (index (h_prices data) i).
Proof.
  unfold fetchHistoricalData. simpl timestamps. simpl prices.
  split; [by rewrite !length_fmap|]. split.
  - generalize 0. induction (h_timestamps data) as [|u ts IH]; intros i;
      cbn [filterLoop]; [constructor|].
    destruct (withinRange getTime now (cutoffTime now timeRange) u); cbn.
    + apply sublist_skip, IH.
    + apply sublist_cons, IH.
  - intros n t Hn. apply filterLoop_paired in Hn as (k & Hk & Hp). eauto.
Qed.

End FetchWindow.

(** ** [processChartData]: the timeline and the aligned series *)

Section AlignmentMore.

Variable getTime : string → number.

#[local] Existing Instance str_le_trans.
#[local] Existing Instance str_le_antisymm.

(** X5. The timeline holds exactly the timestamps that occur in some series
    of the batch, each once, in strictly ascending order of their code
    units. *)
Theorem timeline_code_unit_sorted (data : list cryptoData) :
  (∀ t, t ∈ labels (processChartData getTime data)
        ↔ ∃ c, c ∈ data ∧ t ∈ timestamps c) ∧
  NoDup (labels (processChartData getTime data)) ∧
  ∀ i j s t, i < j →
    labels (processChartData getTime data) !! i = Some s →
    labels (processChartData getTime data) !! j = Some t →
    str_lt s t.
Proof.
  split; [apply elem_of_labels|]. split; [apply NoDup_labels|].
  intros i j s t. apply labels_increasing.
Qed.

Lemma Array_sort_same_elements (l l' : list string) :
  NoDup l → NoDup l' → (∀ t, t ∈ l ↔ t ∈ l') → Array_sort l = Array_sort l'.
Proof.
  intros Hl Hl' Heq. apply Array_sort_unique.
  - rewrite Array_sort_Permutation. by apply NoDup_Permutation.
  - apply StronglySorted_Sorted, Array_sort_sorted.
Qed.

(** X6. The timeline depends on the set of timestamps of the batch only:
    two batches in which the same timestamps occur get the same timeline;
    in particular the order of the series does not matter. *)
Theorem timeline_order_independent (data data' : list cryptoData) :
  ((∀ t, (∃ c, c ∈ data ∧ t ∈ timestamps c) ↔ (∃ c, c ∈ data' ∧ t ∈ timestamps c)) →
   labels (processChartData getTime data) = labels (processChartData getTime data')) ∧
  (data ≡ₚ data' →
   labels (processChartData getTime data) = labels (processChartData getTime data')).
Proof.
  assert (Hsame : (∀ t, (∃ c, c ∈ data ∧ t ∈ timestamps c)
                        ↔ (∃ c, c ∈ data' ∧ t ∈ timestamps c)) →
                  labels (processChartData getTime data)
                  = labels (processChartData getTime data')).
  { intros Heq. simpl.
    apply Array_sort_same_elements; [apply NoDup_allTimestamps..|].
    intros t. by rewrite !elem_of_allTimestamps. }
  split; [exact Hsame|]. intros Hp. apply Hsame. intros t.
  split; intros (c & Hc & Ht); exists c; split; try done.
  - by rewrite <- Hp.
  - by rewrite Hp.
Qed.

(** X7. When the reading of the dates is strictly increasing along the
    code-unit order on the timestamps of the batch (as it is for
    timestamps written in one fixed-width format), the timeline is in
    chronological order. *)
Theorem timeline_chronological_when_monotone (data : list cryptoData) :
  (∀ s t, s ∈ labels (processChartData getTime data) →
          t ∈ labels (processChartData getTime data) →
          str_lt s t → num_ltb (getTime s) (getTime t) = true) →
  chronological getTime (labels (processChartData getTime data)).
Proof.
  intros Hmono i s t Hi Hj.
  apply Hmono; [apply list_elem_of_lookup; eauto..|].
  apply (labels_increasing getTime data i (S i)); [lia|done|done].
Qed.

(** X8. Both charts get one [data] array per series of the batch, in the
    order of the batch, and each array has one entry per label. *)
Theorem datasets_match_labels (data : list cryptoData) :
  pc_symbol <$> processedCryptos (processChartData getTime data) = symbol <$> data ∧
  length (renderZeroBasedChart (processChartData getTime data)) = length data ∧
  length (renderMinMaxChart (processChartData getTime data)) = length data ∧
  Forall (λ d, length d = length (labels (processChartData getTime data)))
         (renderZeroBasedChart (processChartData getTime data)) ∧
  Forall (λ d, length d = length (labels (processChartData getTime data)))
         (renderMinMaxChart (processChartData getTime data)).
Proof.
  unfold renderZeroBasedChart, renderMinMaxChart, datasetsData. simpl.
  split; [by rewrite <- list_fmap_compose|].
  split; [by rewrite !length_fmap|]. split; [by rewrite !length_fmap|].
  split; rewrite <- !list_fmap_compose; apply Forall_fmap, Forall_forall;
    intros c _; simpl;
    unfold zeroBasedNormalizedPrices, minMaxNormalizedPrices;
    by rewrite length_fmap, length_imap.
Qed.

(** *** No gap in the series that has a point *)

Lemma findBefore_known (m : gmap string value) (l : list string) (i : nat)
    (b : string) :
  findBefore m l i = Some b → known m b = true.
Proof.
  induction i as [|i IH]; simpl; [done|].
  destruct (l !! i) as [t|]; [|done].
  destruct (known m t) eqn:Hk; [|done]. by intros [= <-].
Qed.

Lemma findAfter_known (m : gmap string value) (rest : list string) (a : string) :
  findAfter m rest = Some a → known m a = true.
Proof.
  induction rest as [|t rest IH]; simpl; [done|].
  destruct (known m t) eqn:Hk; [|done]. by intros [= <-].
Qed.

Lemma findBefore_None_inv (m : gmap string value) (l : list string) (i j : nat)
    (t : string) :
  findBefore m l i = None → j < i → l !! j = Some t → known m t = false.
Proof.
  induction i as [|i IH]; intros Hnone Hj Ht; [lia|]. simpl in Hnone.
  destruct (decide (j = i)) as [->|Hne].
  - rewrite Ht in Hnone. by destruct (known m t).
  - apply IH; [|lia|done].
    destruct (l !! i) as [u|]; [|done]. by destruct (known m u).
Qed.

Lemma findAfter_None_inv (m : gmap string value) (rest : list string) (k : nat)
    (t : string) :
  findAfter m rest = None → rest !! k = Some t → known m t = false.
Proof.
  revert k. induction rest as [|u rest IH]; intros k Hnone Hk; [done|].
  simpl in Hnone. destruct (known m u) eqn:Hu; [done|].
  destruct k as [|k]; simpl in Hk; [by injection Hk as <-|]. by apply (IH k).
Qed.

Lemma fillPriceMap_cases (ts : list string) (ps : list value)
    (m : gmap string value) (t : string) (v : value) :
  fillPriceMap ts ps m !! t = Some v →
  m !! t = Some v ∨ v = VUndefined ∨ v ∈ ps.
Proof.
  revert ps m. induction ts as [|u ts IH]; intros ps m; simpl; [auto|].
  intros [Hm|[?|Hin]]%IH; [|auto|].
  - destruct (decide (u = t)) as [->|Hne].
    + rewrite lookup_insert_eq in Hm. injection Hm as <-.
      destruct ps as [|p ps]; [auto|]. right. right. left.
    + rewrite lookup_insert_ne in Hm by done. auto.
  - right. right. destruct ps as [|p ps]; [done|]. by right.
Qed.

Lemma known_prop_in_prices (c : cryptoData) (t : string) :
  known (priceMapOf c) t = true → prop (priceMapOf c) t ∈ prices c.
Proof.
  unfold known, prop, priceMapOf.
  destruct (fillPriceMap _ _ _ !! t) as [v|] eqn:Hv; [|done]. simpl.
  apply fillPriceMap_cases in Hv as [Hv|[->|?]]; [|done..].
  by rewrite lookup_empty in Hv.
Qed.

Lemma known_in_timestamps (c : cryptoData) (t : string) :
  known (priceMapOf c) t = true → t ∈ timestamps c.
Proof.
  intros Hk. destruct (decide (t ∈ timestamps c)) as [|Hnin]; [done|].
  rewrite (known_no_point c t Hnin) in Hk. done.
Qed.

(** X9. A series with at least one point, whose timestamps are non-empty
    strings and whose prices are numbers, gets a number at every index of
    the timeline: no [null] and no [undefined] is left in its aligned
    values. *)
Theorem aligned_series_dense (data : list cryptoData) (k : nat) (c : cryptoData) :
  data !! k = Some c →
  (∃ t x, point_at c t x) →
  EmptyString ∉ timestamps c →
  (∀ v, v ∈ prices c → ∃ x, v = VNum x) →
  ∃ pc, processedCryptos (processChartData getTime data) !! k = Some pc ∧
        length (interpolatedPrices pc)
        = length (labels (processChartData getTime data)) ∧
        ∀ v, v ∈ interpolatedPrices pc → ∃ x, v = VNum x.
Proof.
  intros Hk (t0 & x0 & Hp0) Hne Hnum.
  set (l := labels (processChartData getTime data)).
  exists (alignSeries getTime l c).
  split; [by rewrite lookup_processedCryptos, Hk|].
  split; [simpl; apply length_imap|].
  assert (Hknown : ∀ t, known (priceMapOf c) t = true →
                        t ≠ EmptyString ∧ ∃ x, prop (priceMapOf c) t = VNum x).
  { intros t Ht. split.
    - intros ->. by apply Hne, known_in_timestamps.
    - by apply Hnum, known_prop_in_prices. }
  assert (Hin0 : t0 ∈ l).
  { apply elem_of_labels. exists c. split; [apply list_elem_of_lookup; eauto|].
    destruct Hp0 as (n & Hn & _). apply list_elem_of_lookup. eauto. }
  apply list_elem_of_lookup in Hin0 as [j Hj].
  intros v [i Hi]%list_elem_of_lookup.
  rewrite lookup_interpolatedPrices in Hi.
  destruct (l !! i) as [ti|] eqn:Hti; [|done]. injection Hi as <-.
  unfold interpolate.
  destruct (known (priceMapOf c) ti) eqn:Hki; [by apply Hknown|].
  destruct (findBefore (priceMapOf c) l i) as [b|] eqn:Hb;
    destruct (findAfter (priceMapOf c) (drop (S i) l)) as [a|] eqn:Ha.
  - destruct (Hknown b (findBefore_known _ _ _ _ Hb)) as [Hbne _].
    destruct (Hknown a (findAfter_known _ _ _ Ha)) as [Hane _].
    rewrite !truthy_Some by done. eauto.
  - destruct (Hknown b (findBefore_known _ _ _ _ Hb)) as [Hbne Hbx].
    rewrite truthy_Some by done. exact Hbx.
  - destruct (Hknown a (findAfter_known _ _ _ Ha)) as [Hane Hax].
    rewrite truthy_Some by done. exact Hax.
  - exfalso. pose proof (known_point_at c t0 x0 Hp0) as Hk0.
    destruct (Nat.lt_trichotomy j i) as [Hlt|[->|Hgt]].
    + rewrite (findBefore_None_inv _ _ _ j t0 Hb Hlt Hj) in Hk0. done.
    + rewrite Hj in Hti. injection Hti as ->. congruence.
    + assert (Hd : drop (S i) l !! (j - S i) = Some t0).
      { rewrite lookup_drop. by replace (S i + (j - S i)) with j by lia. }
      rewrite (findAfter_None_inv _ _ _ t0 Ha Hd) in Hk0. done.
Qed.

(** X10. At an index where the series has no point, between its nearest
    known point before [(t0, p0)] and after [(t1, p1)], with valid dates
    [a <= b <= d], [a < d], of [t0], of the index and of [t1], the aligned
    value is [p0 + (p1 - p0) * (b - a) / (d - a)], and it lies between [p0]
    and [p1]. *)
Theorem interpolation_between_prices (data : list cryptoData) (k : nat)
    (c : cryptoData) (i j0 j1 : nat) (t t0 t1 : string) (p0 p1 a b d : Qc) :
  data !! k = Some c →
  labels (processChartData getTime data) !! i = Some t → no_point c t →
  j0 < i → labels (processChartData getTime data) !! j0 = Some t0 →
  t0 ≠ EmptyString → point_at c t0 (Fin p0) →
  (∀ n u, j0 < n < i → labels (processChartData getTime data) !! n = Some u →
          no_point c u) →
  i < j1 → labels (processChartData getTime data) !! j1 = Some t1 →
  point_at c t1 (Fin p1) →
  (∀ n u, i < n < j1 → labels (processChartData getTime data) !! n = Some u →
          no_point c u) →
  getTime t0 = Fin a → getTime t = Fin b → getTime t1 = Fin d →
  (a <= b)%Qc → (b <= d)%Qc → (a < d)%Qc →
  ∃ pc, processedCryptos (processChartData getTime data) !! k = Some pc ∧
        interpolatedPrices pc !! i
        = Some (VNum (Fin (p0 + (p1 - p0) * (b - a) / (d - a))%Qc)) ∧
        ((p0 <= p1)%Qc →
         (p0 <= p0 + (p1 - p0) * (b - a) / (d - a))%Qc ∧
         (p0 + (p1 - p0) * (b - a) / (d - a) <= p1)%Qc) ∧
        ((p1 <= p0)%Qc →
         (p1 <= p0 + (p1 - p0) * (b - a) / (d - a))%Qc ∧
         (p0 + (p1 - p0) * (b - a) / (d - a) <= p0)%Qc).
Proof.
  intros Hk Hi Hnp Hj0 Ht0 Hne0 Hp0 Hgap0 Hj1 Ht1 Hp1 Hgap1 Ha Hb Hd Hab Hbd Had.
  exists (alignSeries getTime (labels (processChartData getTime data)) c).
  split; [by rewrite lookup_processedCryptos, Hk|]. split.
  - apply (interpolation_formula getTime _ c i j0 j1 t t0 t1); try done.
    + intros ->. exact (str_lt_empty t (labels_increasing getTime data i j1 _ _ Hj1 Hi Ht1)).
    + by apply Qclt_not_eq.
  - by apply interpolation_bounds.
Qed.

(** X11. A series whose timestamps all occur in other series of the batch
    changes neither the timeline nor the aligned values of the other
    series. *)
Theorem series_without_new_timestamps (before after : list cryptoData)
    (e : cryptoData) :
  (∀ t, t ∈ timestamps e → ∃ c, c ∈ before ++ after ∧ t ∈ timestamps c) →
  labels (processChartData getTime (before ++ e :: after))
  = labels (processChartData getTime (before ++ after)) ∧
  processedCryptos (processChartData getTime (before ++ e :: after))
  = take (length before) (processedCryptos (processChartData getTime (before ++ after)))
    ++ alignSeries getTime (labels (processChartData getTime (before ++ after))) e
    :: drop (length before) (processedCryptos (processChartData getTime (before ++ after))).
Proof.
  intros Hsub.
  assert (Hl : Array_sort (allTimestamps (before ++ e :: after))
               = Array_sort (allTimestamps (before ++ after))).
  { apply Array_sort_same_elements; [apply NoDup_allTimestamps..|].
    intros t. rewrite !elem_of_allTimestamps. split.
    - intros (c & Hc & Ht). apply elem_of_app in Hc as [Hc|Hc].
      + exists c. split; [apply elem_of_app; by left|done].
      + apply elem_of_cons in Hc as [->|Hc]; [by apply Hsub|].
        exists c. split; [apply elem_of_app; by right|done].
    - intros (c & Hc & Ht). exists c. split; [|done].
      apply elem_of_app in Hc as [Hc|Hc]; apply elem_of_app; [by left|].
      right. by right. }
  split; [exact Hl|].
  simpl. rewrite Hl, !fmap_app, fmap_cons.
  set (f := alignSeries getTime (Array_sort (allTimestamps (before ++ after)))).
  rewrite <- (length_fmap f before).
  by rewrite take_app_length, drop_app_length.
Qed.

(** X16. A series with a single point [(t, x)], [t] a non-empty string and
    [x] a finite price, is aligned to [x] at every index of the timeline;
    the min-max chart then gets [NaN] at every index (the minimum and the
    maximum coincide), and the zero-based chart gets 100 at every index
    unless [x] is 0. *)
Theorem single_point_series (data : list cryptoData) (k : nat) (c : cryptoData)
    (t : string) (x : Qc) :
  data !! k = Some c →
  timestamps c = [t] → prices c = [VNum (Fin x)] → t ≠ EmptyString →
  ∃ pc, processedCryptos (processChartData getTime data) !! k = Some pc ∧
    interpolatedPrices pc
    = replicate (length (labels (processChartData getTime data))) (VNum (Fin x)) ∧
    minMaxNormalizedPrices (interpolatedPrices pc)
    = replicate (length (labels (processChartData getTime data))) (VNum NaN) ∧
    (x ≠ Q2Qc 0 →
     zeroBasedNormalizedPrices (interpolatedPrices pc)
     = replicate (length (labels (processChartData getTime data))) (VNum (num 100))).
Proof.
  intros Hk Hts Hps Hne.
  set (l := labels (processChartData getTime data)).
  assert (Hp : point_at c t (Fin x)).
  { exists 0. rewrite Hts, Hps. split; [done|]. split; [done|]. apply not_elem_of_nil. }
  assert (Hother : ∀ u, u ≠ t → no_point c u).
  { intros u Hu. unfold no_point. rewrite Hts. by intros ->%list_elem_of_singleton. }
  assert (Hin : t ∈ l).
  { apply elem_of_labels. exists c. split; [apply list_elem_of_lookup; eauto|].
    rewrite Hts. left. }
  apply list_elem_of_lookup in Hin as [j Hj].
  assert (Hdiff : ∀ n u, n ≠ j → l !! n = Some u → no_point c u).
  { intros n u Hn Hu. apply Hother. intros ->.
    apply Hn. exact (NoDup_lookup _ _ _ _ (NoDup_labels getTime data) Hu Hj). }
  assert (Hal : interpolatedPrices (alignSeries getTime l c)
                = replicate (length l) (VNum (Fin x))).
  { apply list_eq. intros i.
    destruct (decide (i < length l)) as [Hi|Hi].
    - rewrite lookup_replicate_2 by done.
      destruct (Nat.lt_trichotomy i j) as [Hlt|[->|Hgt]].
      + apply (aligned_before_first getTime l c i j t); try done.
        intros n u Hn. apply Hdiff. lia.
      + by apply (aligned_at_point getTime l c j t).
      + apply (aligned_after_last getTime l c i j t); try done.
        intros n u Hn. apply Hdiff. lia.
    - rewrite lookup_interpolatedPrices, (lookup_ge_None_2 l i) by lia.
      symmetry. apply lookup_replicate_None. lia. }
  exists (alignSeries getTime l c).
  split; [by rewrite lookup_processedCryptos, Hk|]. split; [exact Hal|].
  rewrite Hal.
  assert (Hlen : 0 < length l) by (apply lookup_lt_Some in Hj; lia).
  assert (Hc : constant_series (replicate (length l) (VNum (Fin x))) x).
  { intros v [-> _]%elem_of_replicate. by right. }
  assert (Hx : VNum (Fin x) ∈ replicate (length l) (VNum (Fin x))).
  { apply elem_of_replicate. split; [done|lia]. }
  split.
  - unfold minMaxNormalizedPrices.
    rewrite (Math_min_series _ x), (Math_max_series _ x)
      by auto using constant_series_min, constant_series_max.
    rewrite fmap_replicate. by rewrite normalizePrice_degenerate.
  - intros Hx0. unfold zeroBasedNormalizedPrices.
    rewrite (Math_max_series _ x) by auto using constant_series_max.
    rewrite fmap_replicate. f_equal.
    unfold num at 1. rewrite normalizePrice_Fin by done. unfold num. do 2 f_equal.
    change (qz 0) with (Q2Qc 0). field. intros H0. apply Hx0.
    rewrite <- H0. ring.
Qed.

End AlignmentMore.

(** ** Normalization: extremes, order and scale *)

Section NormalizationMore.

Local Open Scope Qc_scope.

(** X12. Under the zero-based policy, when the greatest non-null value [M]
    of the series is not 0, an index holding [M] gets exactly 100 and an
    index holding 0 gets exactly 0. *)
Theorem zeroBased_extremes (l : list value) (M : Qc) :
  series_max l M → M ≠ 0 →
  (∀ i, l !! i = Some (VNum (Fin M)) →
        zeroBasedNormalizedPrices l !! i = Some (VNum (num 100))) ∧
  (∀ i, l !! i = Some (VNum (num 0)) →
        zeroBasedNormalizedPrices l !! i = Some (VNum (num 0))).
Proof.
  intros Hmax HM. unfold zeroBasedNormalizedPrices.
  rewrite (Math_max_series l M) by done.
  assert (HM0 : M - 0 ≠ 0) by (intros H0; apply HM; rewrite <- H0; ring).
  split; intros i Hi; rewrite list_lookup_fmap, Hi; simpl; do 2 f_equal;
    unfold num; rewrite normalizePrice_Fin by done; do 2 f_equal;
    change (qz 0) with 0; field; done.
Qed.

Lemma positive_factor (w : Qc) : 0 < w → 0 < / w * qz 100.
Proof.
  intros Hw.
  assert (Hw0 : w ≠ 0) by (intros ->; by apply (Qclt_not_eq 0 0)).
  apply Qcnot_le_lt. intros Hle.
  assert (H : / w * qz 100 * w <= 0 * w)
    by (apply Qcmult_le_compat_r; [done|by apply Qclt_le_weak]).
  replace (/ w * qz 100 * w) with (qz 100) in H by (field; done).
  replace (0 * w) with 0 in H by ring.
  exact (Qcle_not_lt _ _ H qz_100_pos).
Qed.

Lemma scaled_le (q q' lo w : Qc) :
  0 < w → q <= q' →
  (q - lo) / w * qz 100 <= (q' - lo) / w * qz 100.
Proof.
  intros Hw H.
  replace ((q - lo) / w * qz 100) with ((q - lo) * (/ w * qz 100))
    by (unfold Qcdiv; ring).
  replace ((q' - lo) / w * qz 100) with ((q' - lo) * (/ w * qz 100))
    by (unfold Qcdiv; ring).
  apply Qcmult_le_compat_r.
  - by apply minus_le_minus.
  - apply Qclt_le_weak. by apply positive_factor.
Qed.

(** X13. Normalization never swaps two prices of a series: under the
    min-max policy when the least and greatest values differ, and under the
    zero-based policy when the greatest value is positive, an entry that is
    not above another one before normalization is not above it after (two
    different prices may get the same normalized value, they are never
    exchanged). *)
Theorem normalization_keeps_order (l : list value) (m M : Qc) :
  series_min l m → series_max l M →
  (m ≠ M → ∀ i j q q',
     l !! i = Some (VNum (Fin q)) → l !! j = Some (VNum (Fin q')) →
     q <= q' →
     ∃ r r', minMaxNormalizedPrices l !! i = Some (VNum (Fin r)) ∧
             minMaxNormalizedPrices l !! j = Some (VNum (Fin r')) ∧
             r <= r') ∧
  (0 < M → ∀ i j q q',
     l !! i = Some (VNum (Fin q)) → l !! j = Some (VNum (Fin q')) →
     q <= q' →
     ∃ r r', zeroBasedNormalizedPrices l !! i = Some (VNum (Fin r)) ∧
             zeroBasedNormalizedPrices l !! j = Some (VNum (Fin r')) ∧
             r <= r').
Proof.
  intros Hmin Hmax.
  pose proof (series_min_le_max l m M Hmin Hmax) as HmM.
  split.
  - intros Hne i j q q' Hi Hj Hq. unfold minMaxNormalizedPrices.
    rewrite (Math_min_series l m), (Math_max_series l M) by done.
    rewrite !list_lookup_fmap, Hi, Hj. simpl.
    rewrite !normalizePrice_Fin by done.
    eexists _, _. split; [done|]. split; [done|].
    apply scaled_le; [by apply minus_pos|done].
  - intros HM i j q q' Hi Hj Hq. unfold zeroBasedNormalizedPrices.
    rewrite (Math_max_series l M) by done.
    rewrite !list_lookup_fmap, Hi, Hj. simpl.
    assert (HM0 : M ≠ qz 0) by (intros ->; by apply (Qclt_not_eq 0 0)).
    unfold num. rewrite !normalizePrice_Fin by done.
    eexists _, _. split; [done|]. split; [done|].
    apply scaled_le; [|done]. change (qz 0) with 0.
    by replace (M - 0) with M by ring.
Qed.

Lemma rescale_not_null (a b : Qc) (v : value) :
  not_null (rescale a b v) = not_null v.
Proof. by destruct v as [[| | |]| |]. Qed.

Lemma rescale_le (a b q q' : Qc) : 0 < a → q <= q' → a * q + b <= a * q' + b.
Proof.
  intros Ha H. apply Qcplus_le_compat; [|apply Qcle_refl].
  apply Qcmult_le_mono_nonneg_l; [by apply Qclt_le_weak|done].
Qed.

Lemma rescale_series (a b : Qc) (l : list value) (m M : Qc) :
  0 < a → series_min l m → series_max l M →
  series_min (rescale a b <$> l) (a * m + b) ∧
  series_max (rescale a b <$> l) (a * M + b).
Proof.
  intros Ha Hmin Hmax.
  assert (Hent : ∀ v, v ∈ rescale a b <$> l → not_null v = true →
                      ∃ q, v = VNum (Fin (a * q + b)) ∧ m <= q ∧ q <= M).
  { intros v (u & -> & Hu)%list_elem_of_fmap Hnn. rewrite rescale_not_null in Hnn.
    destruct (series_entry_finite l m M u Hmin Hmax Hu Hnn) as (q & -> & H1 & H2).
    eauto. }
  split; split.
  - apply (list_elem_of_fmap_2 (rescale a b) _ (VNum (Fin m))), Hmin.
  - intros v Hv Hnn. destruct (Hent v Hv Hnn) as (q & -> & H1 & H2).
    simpl. apply num_leb_Fin. by apply rescale_le.
  - apply (list_elem_of_fmap_2 (rescale a b) _ (VNum (Fin M))), Hmax.
  - intros v Hv Hnn. destruct (Hent v Hv Hnn) as (q & -> & H1 & H2).
    simpl. apply num_leb_Fin. by apply rescale_le.
Qed.

(** X14. The min-max normalization of a series does not depend on the unit
    or the level of its prices: multiplying the prices by a positive factor
    [a] and adding [b] to them leaves the normalized series unchanged
    (least and greatest values distinct). *)
Theorem minMax_rescale_invariant (l : list value) (m M a b : Qc) :
  series_min l m → series_max l M → m ≠ M → 0 < a →
  minMaxNormalizedPrices (rescale a b <$> l) = minMaxNormalizedPrices l.
Proof.
  intros Hmin Hmax Hne Ha.
  destruct (rescale_series a b l m M Ha Hmin Hmax) as [Hmin' Hmax'].
  unfold minMaxNormalizedPrices.
  rewrite (Math_min_series _ _ Hmin'), (Math_max_series _ _ Hmax').
  rewrite (Math_min_series _ _ Hmin), (Math_max_series _ _ Hmax).
  rewrite <- list_fmap_compose. apply list_fmap_ext. intros i u Hu.
  apply list_elem_of_lookup_2 in Hu. simpl.
  destruct (not_null u) eqn:Hnn; [|by destruct u].
  destruct (series_entry_finite l m M u Hmin Hmax Hu Hnn) as (q & -> & H1 & H2).
  assert (Ha0 : a ≠ 0) by (intros ->; by apply (Qclt_not_eq 0 0)).
  assert (HMm : M - m ≠ 0).
  { intros H0. apply Hne. rewrite <- (Qcplus_0_l m), <- H0. ring. }
  assert (Hne' : a * M + b ≠ a * m + b).
  { intros H0. apply HMm.
    assert (Hz : a * (M - m) = 0) by (replace (a * (M - m)) with ((a * M + b) - (a * m + b)) by ring; rewrite H0; ring).
    by destruct (Qcmult_integral _ _ Hz). }
  simpl rescale. rewrite !normalizePrice_Fin by done. do 2 f_equal.
  field. split; [done|].
  replace (a * M + b - (a * m + b)) with (a * (M - m)) by ring.
  intros Hz. by destruct (Qcmult_integral _ _ Hz).
Qed.

(** X15. The zero-based normalization of a series does not depend on the
    unit of its prices: multiplying the prices by a positive factor leaves
    the normalized series unchanged (greatest value not 0). *)
Theorem zeroBased_rescale_invariant (l : list value) (m M a : Qc) :
  series_min l m → series_max l M → M ≠ 0 → 0 < a →
  zeroBasedNormalizedPrices (rescale a 0 <$> l) = zeroBasedNormalizedPrices l.
Proof.
  intros Hmin Hmax HM Ha.
  destruct (rescale_series a 0 l m M Ha Hmin Hmax) as [_ Hmax'].
  unfold zeroBasedNormalizedPrices.
  rewrite (Math_max_series _ _ Hmax'), (Math_max_series _ _ Hmax).
  rewrite <- list_fmap_compose. apply list_fmap_ext. intros i u Hu.
  apply list_elem_of_lookup_2 in Hu. simpl.
  destruct (not_null u) eqn:Hnn; [|by destruct u].
  destruct (series_entry_finite l m M u Hmin Hmax Hu Hnn) as (q & -> & H1 & H2).
  assert (Ha0 : a ≠ 0) by (intros ->; by apply (Qclt_not_eq 0 0)).
  assert (HaM : a * M + 0 ≠ qz 0).
  { change (qz 0) with 0. intros Hz. rewrite Qcplus_0_r in Hz.
    by destruct (Qcmult_integral _ _ Hz). }
  simpl rescale. unfold num. rewrite !normalizePrice_Fin by done. do 2 f_equal.
  change (qz 0) with 0. field. done.
Qed.

End NormalizationMore.

(** ** [fetchAllCryptosData]: one refresh *)

Section Refresh.

Variable getTime : string → number.






(** X18. With a time range other than ['24h'], ['7d'] and ['1m'], a refresh
    whose eight responses arrive renders two charts without labels, each
    with eight empty datasets. *)
Theorem refresh_with_unknown_range (server : string → option history)
    (clock : string → Z) (timeRange : string) :
  (∀ sym, sym ∈ cryptos → is_Some (server sym)) →
  timeRange ≠ "24h"%string → timeRange ≠ "7d"%string → timeRange ≠ "1m"%string →
  fetchAllCryptosData getTime server clock timeRange
  = Some {| chartLabels := [];
            zeroBasedData := replicate 8 [];
            minMaxData := replicate 8 [] |}.
Proof.
  intros Hall H24 H7 H1.
  assert (Hone : ∀ sym, sym ∈ cryptos →
    (data ← server sym;
     Some (fetchHistoricalData getTime data (clock sym) sym timeRange))
    = Some {| symbol := sym; timestamps := []; prices := [] |}).
  { intros sym [data Hs]%Hall. rewrite Hs. simpl. f_equal.
    unfold fetchHistoricalData, cutoffTime.
    repeat case_decide; try done. by rewrite filterLoop_undefined. }
  unfold fetchAllCryptosData.
  rewrite (mapM_Some_2 _ cryptos
             ((λ sym, {| symbol := sym; timestamps := []; prices := [] |}) <$> cryptos)).
  - reflexivity.
  - apply Forall2_fmap_r, Forall_Forall2_diag, Forall_forall. exact Hone.
Qed.

End Refresh.

(** ** [getColorForSymbol] and the hover colour *)

Section Colours.

(** The colours [getColorForSymbol] can return. *)
Lemma getColorForSymbol_candidates (inherited : string → bool) (sym c : string) :
  getColorForSymbol inherited sym = Some c →
  c = defaultColor ∨ (sym, c) ∈ extendedColors ++ colors.
Proof.
  unfold getColorForSymbol, allColors. rewrite <- list_to_map_app.
  destruct (list_to_map (extendedColors ++ colors) !! sym) as [color|] eqn:Hc.
  - apply elem_of_list_to_map_2 in Hc.
    destruct (decide (color = EmptyString)); intros [= <-]; auto.
  - destruct (inherited sym); [done|]. intros [= <-]. auto.
Qed.

(** X19. For every symbol that does not name a member inherited from
    [Object.prototype], [getColorForSymbol] returns a text [rgb(r, g, b)]
    with three runs of digits, so the hover colour is defined and is the
    same colour with the opacity 0.8, [rgba(r, g, b, 0.8)]. *)
Theorem hover_colour_defined (inherited : string → bool) (sym : string) :
  inherited sym = false →
  ∃ r g b, getColorForSymbol inherited sym = Some (rgbText r g b) ∧
           matchDigits EmptyString (rgbText r g b) = [r; g; b] ∧
           hoverColor (rgbText r g b) = Some (rgbaText r g b "0.8").
Proof.
  intros Hinh.
  assert (Hall : Forall rgb_shaped (defaultColor :: (extendedColors ++ colors).*2)).
  { repeat constructor; vm_compute; split; reflexivity. }
  rewrite Forall_forall in Hall.
  assert (Hsome : ∃ c, getColorForSymbol inherited sym = Some c).
  { unfold getColorForSymbol. destruct (allColors !! sym); [eauto|].
    rewrite Hinh. eauto. }
  destruct Hsome as [c Hc].
  assert (Hshape : rgb_shaped c).
  { apply Hall. apply getColorForSymbol_candidates in Hc as [->|Hin]; [left|].
    right. apply (list_elem_of_fmap_2 snd _ (sym, c)), Hin. }
  unfold rgb_shaped in Hshape.
  destruct (matchDigits EmptyString c) as [|r [|g [|b [|? ?]]]] eqn:Hm; try done.
  destruct Hshape as [-> Hh]. exists r, g, b. done.
Qed.

Lemma snd_injective (l : list (string * string)) (s s' c : string) :
  NoDup (l.*2) → (s, c) ∈ l → (s', c) ∈ l → s = s'.
Proof.
  induction l as [|[k v] l IH]; intros Hnd Hs Hs'; [by apply elem_of_nil in Hs|].
  simpl in Hnd. apply NoDup_cons in Hnd as [Hv Hnd].
  apply elem_of_cons in Hs as [Heq|Hs]; apply elem_of_cons in Hs' as [Heq'|Hs'].
  - congruence.
  - injection Heq as -> ->. exfalso. apply Hv.
    apply (list_elem_of_fmap_2 snd _ (s', v)), Hs'.
  - injection Heq' as -> ->. exfalso. apply Hv.
    apply (list_elem_of_fmap_2 snd _ (s, v)), Hs.
  - by apply IH.
Qed.

(** X20. Two different symbols get the same colour only when it is the
    default grey: the twenty listed symbols have pairwise different
    colours, none of them the default. *)
Theorem colours_distinct (inherited : string → bool) (s s' c : string) :
  getColorForSymbol inherited s = Some c →
  getColorForSymbol inherited s' = Some c →
  c ≠ defaultColor →
  s = s' ∧ allColors !! s = Some c.
Proof.
  intros Hs Hs' Hc.
  assert (Hnd : NoDup (defaultColor :: (extendedColors ++ colors).*2))
    by (apply (bool_decide_eq_true_1 _); vm_compute; reflexivity).
  apply NoDup_cons in Hnd as [_ Hnd].
  pose proof Hs as Hown.
  apply getColorForSymbol_candidates in Hs as [?|Hs]; [done|].
  apply getColorForSymbol_candidates in Hs' as [?|Hs']; [done|].
  split; [by apply (snd_injective _ s s' c Hnd)|].
  unfold getColorForSymbol in Hown.
  destruct (allColors !! s) as [color|]; [|by destruct (inherited s); simplify_eq].
  destruct (decide (color = EmptyString)); by simplify_eq.
Qed.

End Colours.

(** ** The further properties at the scenarios *)

Section EvaluationMore.

Import Scenario MoreScenarios.

Ltac by_evaluation := apply (bool_decide_eq_true_1 _); vm_compute; reflexivity.

Ltac each_entry Hv :=
  repeat (apply elem_of_cons in Hv as [->|Hv]); [reflexivity..|];
  by apply elem_of_nil in Hv.

Ltac no_entry Hv :=
  simpl in Hv;
  repeat (apply elem_of_cons in Hv as [Hv|Hv]); [discriminate Hv..|];
  by apply elem_of_nil in Hv.

Lemma ladder_min : series_min ladder (qz 100).
Proof. split; [left|]. intros v Hv _. each_entry Hv. Qed.

Lemma ladder_max : series_max ladder (qz 110).
Proof. split; [right; right; left|]. intros v Hv _. each_entry Hv. Qed.

Lemma fromZero_min : series_min fromZero (qz 0).
Proof. split; [left|]. intros v Hv _. each_entry Hv. Qed.

Lemma fromZero_max : series_max fromZero (qz 100).
Proof. split; [right; right; left|]. intros v Hv _. each_entry Hv. Qed.

Lemma fetch_keeps_the_window_witness :
  t1 ∈ timestamps (fetchHistoricalData Date.utcTime response now "btc" "24h").
Proof.
  apply (proj1 (fetch_keeps_the_window Date.utcTime response now "btc" t1)).
  split; [right; left|]. split; reflexivity.
Defined.

Lemma invalid_or_future_dropped_witness :
  "yesterday"%string
  ∉ timestamps (fetchHistoricalData Date.utcTime withInvalid now "btc" "7d").
Proof.
  apply (invalid_or_future_dropped Date.utcTime withInvalid now "btc" "7d" "yesterday").
  left. reflexivity.
Defined.

Lemma fetched_arrays_parallel_witness :
  ∃ i, h_timestamps response !! i = Some t1 ∧
       prices (fetchHistoricalData Date.utcTime response now "btc" "24h") !! 0
       = Some (index (h_prices response) i).
Proof.
  destruct (fetched_arrays_parallel Date.utcTime response now "btc" "24h")
    as (_ & _ & Hpair).
  apply (Hpair 0 t1). reflexivity.
Defined.

Lemma timeline_code_unit_sorted_witness : str_lt t1 t3.
Proof.
  destruct (timeline_code_unit_sorted Date.utcTime [BTC; ETH]) as (_ & _ & Hlt).
  apply (Hlt 0 2); [lia|reflexivity|reflexivity].
Defined.

Lemma timeline_order_independent_witness :
  labels (processChartData Date.utcTime [BTC; ETH])
  = labels (processChartData Date.utcTime [ETH; BTC]).
Proof.
  apply (proj2 (timeline_order_independent Date.utcTime [BTC; ETH] [ETH; BTC])).
  apply perm_swap.
Defined.

Lemma timeline_chronological_when_monotone_witness :
  chronological Date.utcTime (labels (processChartData Date.utcTime [BTC; ETH])).
Proof.
  apply timeline_chronological_when_monotone.
  assert (Hl : labels (processChartData Date.utcTime [BTC; ETH]) = [t1; t2; t3])
    by by vm_compute.
  rewrite Hl. intros s t Hs Ht Hlt.
  repeat (apply elem_of_cons in Hs as [->|Hs]); [| | |by apply elem_of_nil in Hs];
    (repeat (apply elem_of_cons in Ht as [->|Ht]); [| | |by apply elem_of_nil in Ht]);
    first [reflexivity|discriminate Hlt].
Defined.

Lemma aligned_series_dense_witness :
  ∃ pc, processedCryptos (processChartData Date.utcTime [BTC; ETH]) !! 0 = Some pc ∧
        ∀ v, v ∈ interpolatedPrices pc → ∃ x, v = VNum x.
Proof.
  assert (Hp : point_at BTC t1 (num 100)).
  { exists 0. split; [reflexivity|]. split; [reflexivity|]. simpl.
    intros Hin%list_elem_of_singleton. discriminate Hin. }
  assert (Hne : EmptyString ∉ timestamps BTC).
  { intros Hv. no_entry Hv. }
  assert (Hnum : ∀ v, v ∈ prices BTC → ∃ x, v = VNum x).
  { intros v Hv. simpl in Hv.
    repeat (apply elem_of_cons in Hv as [->|Hv]); [eauto..|].
    by apply elem_of_nil in Hv. }
  destruct (aligned_series_dense Date.utcTime [BTC; ETH] 0 BTC eq_refl
              (ex_intro _ t1 (ex_intro _ (num 100) Hp)) Hne Hnum)
    as (pc & Hpc & _ & Hall).
  exists pc. split; [exact Hpc|exact Hall].
Defined.

Lemma interpolation_between_prices_witness :
  ∃ pc, processedCryptos (processChartData Date.utcTime [BTC; ETH]) !! 0 = Some pc ∧
        interpolatedPrices pc !! 1 = Some (VNum (num 105)).
Proof.
  assert (Hp1 : point_at BTC t1 (num 100)).
  { exists 0. split; [reflexivity|]. split; [reflexivity|]. simpl.
    intros Hin%list_elem_of_singleton. discriminate Hin. }
  assert (Hp3 : point_at BTC t3 (num 110)).
  { exists 1. split; [reflexivity|]. split; [reflexivity|]. apply not_elem_of_nil. }
  assert (Hn2 : no_point BTC t2).
  { intros Hv. no_entry Hv. }
  assert (Hgap0 : ∀ n u, 0 < n < 1 → [t1; t2; t3] !! n = Some u → no_point BTC u)
    by (intros; lia).
  assert (Hgap1 : ∀ n u, 1 < n < 2 → [t1; t2; t3] !! n = Some u → no_point BTC u)
    by (intros; lia).
  assert (Hab : (qz 1704067200000 <= qz 1704070800000)%Qc) by discriminate.
  assert (Hbd : (qz 1704070800000 <= qz 1704074400000)%Qc) by discriminate.
  assert (Had : (qz 1704067200000 < qz 1704074400000)%Qc) by reflexivity.
  destruct (interpolation_between_prices Date.utcTime [BTC; ETH] 0 BTC 1 0 2
              t2 t1 t3 (qz 100) (qz 110)
              (qz 1704067200000) (qz 1704070800000) (qz 1704074400000)
              eq_refl eq_refl Hn2 ltac:(lia) eq_refl ltac:(discriminate) Hp1 Hgap0
              ltac:(lia) eq_refl Hp3 Hgap1 eq_refl eq_refl eq_refl Hab Hbd Had)
    as (pc & Hpc & Hv & _).
  exists pc. split; [exact Hpc|]. rewrite Hv. by_evaluation.
Defined.

Lemma series_without_new_timestamps_witness :
  labels (processChartData Date.utcTime ([BTC] ++ SOL :: [ETH]))
  = labels (processChartData Date.utcTime ([BTC] ++ [ETH])).
Proof.
  apply (series_without_new_timestamps Date.utcTime [BTC] [ETH] SOL).
  intros t Ht. exists BTC. split; [left|].
  simpl in Ht. apply list_elem_of_singleton in Ht as ->. right. left.
Defined.

Lemma single_point_series_witness :
  ∃ pc, processedCryptos (processChartData Date.utcTime [BTC; ETH]) !! 1 = Some pc ∧
        minMaxNormalizedPrices (interpolatedPrices pc)
        = replicate (length (labels (processChartData Date.utcTime [BTC; ETH])))
                    (VNum NaN).
Proof.
  destruct (single_point_series Date.utcTime [BTC; ETH] 1 ETH t2 (qz 50)
              eq_refl eq_refl eq_refl ltac:(discriminate))
    as (pc & Hpc & _ & Hmm & _).
  exists pc. split; [exact Hpc|exact Hmm].
Defined.

Lemma zeroBased_extremes_witness :
  zeroBasedNormalizedPrices fromZero !! 2 = Some (VNum (num 100)) ∧
  zeroBasedNormalizedPrices fromZero !! 0 = Some (VNum (num 0)).
Proof.
  destruct (zeroBased_extremes fromZero (qz 100) fromZero_max ltac:(discriminate))
    as [Hhi Hlo].
  split; [exact (Hhi 2 eq_refl)|exact (Hlo 0 eq_refl)].
Defined.

Lemma normalization_keeps_order_witness :
  ∃ r r', minMaxNormalizedPrices ladder !! 0 = Some (VNum (Fin r)) ∧
          minMaxNormalizedPrices ladder !! 1 = Some (VNum (Fin r')) ∧
          (r <= r')%Qc.
Proof.
  destruct (normalization_keeps_order ladder (qz 100) (qz 110) ladder_min ladder_max)
    as [Hmm _].
  destruct (Hmm ltac:(discriminate) 0 1 (qz 100) (qz 105) eq_refl eq_refl
              ltac:(discriminate))
    as (r & r' & H0 & H1 & Hle).
  exists r, r'. split; [exact H0|]. split; [exact H1|exact Hle].
Defined.

Lemma minMax_rescale_invariant_witness :
  minMaxNormalizedPrices (rescale (qz 2) (qz 10) <$> ladder)
  = minMaxNormalizedPrices ladder.
Proof.
  apply (minMax_rescale_invariant ladder (qz 100) (qz 110) (qz 2) (qz 10)
           ladder_min ladder_max); [discriminate|reflexivity].
Defined.

Lemma zeroBased_rescale_invariant_witness :
  zeroBasedNormalizedPrices (rescale (qz 2) (Q2Qc 0) <$> ladder)
  = zeroBasedNormalizedPrices ladder.
Proof.
  apply (zeroBased_rescale_invariant ladder (qz 100) (qz 110) (qz 2)
           ladder_min ladder_max); [discriminate|reflexivity].
Defined.


Lemma refresh_with_unknown_range_witness :
  fetchAllCryptosData Date.utcTime answering still "1y"
  = Some {| chartLabels := [];
            zeroBasedData := replicate 8 [];
            minMaxData := replicate 8 [] |}.
Proof.
  apply refresh_with_unknown_range; try discriminate.
  intros sym _. by exists response.
Defined.

Lemma hover_colour_defined_witness :
  ∃ r g b, getColorForSymbol prototypeMember "btc" = Some (rgbText r g b) ∧
           matchDigits EmptyString (rgbText r g b) = [r; g; b] ∧
           hoverColor (rgbText r g b) = Some (rgbaText r g b "0.8").
Proof. apply hover_colour_defined. reflexivity. Defined.

Lemma colours_distinct_witness :
  "btc"%string = "btc"%string ∧ allColors !! "btc"%string = Some "rgb(247, 147, 26)"%string.
Proof.
  apply (colours_distinct prototypeMember "btc" "btc" "rgb(247, 147, 26)");
    [reflexivity|reflexivity|discriminate].
Defined.

(** The charts of a refresh over the last day, every symbol answered with
    the points [(t1, 100)] and [(t3, 110)]. *)
Lemma refresh_example :
  fetchAllCryptosData Date.utcTime answering still "24h"
  = Some {| chartLabels := [t1; t3];
            zeroBasedData :=
              replicate 8 [VNum (Fin (Q2Qc (1000 # 11))); VNum (num 100)];
            minMaxData := replicate 8 [VNum (num 0); VNum (num 100)] |}.
Proof. by_evaluation. Qed.

(** An inherited member is not a colour, and a text without digits has no
    hover colour. *)
Lemma colour_edge_cases :
  getColorForSymbol prototypeMember "toString" = None ∧
  getColorForSymbol prototypeMember "pepe" = Some defaultColor ∧
  hoverColor "grey" = None.
Proof. repeat split. Qed.

End EvaluationMore.
